(** * vid2cleantxt: the chunked transcription pipeline of [transcribe.py]

    A shallow embedding of [src/vid2cleantxt/transcribe.py].  The Python
    code is effectful: it raises, it reads and writes the filesystem, it
    reads the wall clock and it calls into opaque collaborators (the
    segmenter, the acoustic models, the spell checkers, the keyword
    extractor).  The embedding threads an explicit [World] (directories,
    files, clock), returns a [result] that is either a value or a raised
    exception, and records the calls that leave the process (model calls,
    device checkpoints, file writes, spell-checker and keyword calls) as the
    [Event]s of the computation's trace.  Progress bars, [print] and
    [logging.info] lines only report and are left out; the two
    [logging.warning] lines of the spell-checker fallback are events. *)

From Stdlib Require Import Ascii String QArith.
From stdpp Require Import gmap strings list fin_maps pretty.

Open Scope string_scope.
Open Scope list_scope.
Open Scope nat_scope.

(** ** Strings, the way the Python code uses them *)

(** [os.path.join(a, b)] when [b] is a relative path. *)
Definition join (a b : string) : string := a +:+ "/" +:+ b.

(** [c.lower()] on one ASCII character; model identifiers are ASCII. *)
Definition ascii_lower (c : ascii) : ascii :=
  let n := Ascii.N_of_ascii c in
  if ((65 <=? n) && (n <=? 90))%N then Ascii.ascii_of_N (n + 32) else c.

(** [s.lower()] *)
Fixpoint lower (s : string) : string :=
  match s with
  | EmptyString => EmptyString
  | String c s' => String (ascii_lower c) (lower s')
  end.

(** [s.startswith(p)] *)
Fixpoint startswith (p s : string) : bool :=
  match p, s with
  | EmptyString, _ => true
  | String _ _, EmptyString => false
  | String a p', String b s' => if Ascii.eqb a b then startswith p' s' else false
  end.

(** [p in s] on strings: [p] occurs in [s] as a contiguous substring. *)
Fixpoint contains (p s : string) : bool :=
  startswith p s ||
  match s with
  | EmptyString => false
  | String _ s' => contains p s'
  end.

(** [s.endswith(p)] *)
Definition endswith (p s : string) : bool :=
  startswith (String.rev p) (String.rev s).

(** The line feed that ends every fragment. *)
Definition newline : string := String "010" EmptyString.

(** [sep.join(l)] *)
Fixpoint str_join (sep : string) (l : list string) : string :=
  match l with
  | [] => EmptyString
  | [x] => x
  | x :: rest => x +:+ sep +:+ str_join sep rest
  end.

(** [s.split(sep)] for a one-character separator: every occurrence of the
    separator cuts, so consecutive separators give empty pieces and the
    empty string gives one empty piece. *)
Fixpoint split_on (sep : ascii) (s : string) : list string :=
  match s with
  | EmptyString => [EmptyString]
  | String c s' =>
      if Ascii.eqb c sep then EmptyString :: split_on sep s'
      else match split_on sep s' with
           | [] => [String c EmptyString]
           | w :: ws => String c w :: ws
           end
  end.

(** Number of occurrences of a character. *)
Fixpoint count_char (c : ascii) (s : string) : nat :=
  match s with
  | EmptyString => 0
  | String d s' => (if Ascii.eqb d c then 1 else 0) + count_char c s'
  end.

(** ** Data model *)

(** The exceptions the code can meet.  [Failure who msg] is an exception
    raised inside a collaborator ([who] names it); every constructor is a
    subclass of Python's [Exception], which is what [except Exception]
    catches. *)
Inductive exn :=
| NameError (name : string)
| UnboundLocalError (name : string)
| AttributeError (msg : string)
| TypeError (msg : string)
| IndexError (msg : string)
| FileNotFoundError (path : string)
| Failure (who msg : string).

Inductive result (A : Type) :=
| Ok (a : A)
| Raise (e : exn).
Arguments Ok {A} a.
Arguments Raise {A} e.

(** The model classes [transformers] is asked for. *)
Inductive ModelClass :=
| Wav2Vec2ForCTC
| HubertForCTC
| WavLMForCTC
| WhisperForConditionalGeneration.

Record Model := {
  model_class : ModelClass;
  num_parameters : Z;
  model_hf_id : string }.

Record Processor := { processor_hf_id : string }.

(** The two spell-checker handles. *)
Inductive Checker :=
| Neuspell
| Symspell.

(** One row of the metadata table, in the order of the list assigned to
    [md_df.loc[len(md_df), :]]. *)
Record MetadataRow := {
  md_clip_name : string;
  md_chunk_count : nat;
  md_chunk_dur : Z;
  md_duration_min : Q;
  md_timestamp : string;
  md_full_text : string;
  md_num_chars : nat;
  md_num_words : nat }.

(** A keyword [DataFrame]: its columns, each a header and its cells; a
    missing cell ([NaN]) is [None]. *)
Record Column := {
  col_name : string;
  col_cells : list (option string) }.

Definition DataFrame := list Column.

Definition df_rows (df : DataFrame) : nat :=
  foldr (fun c n => Nat.max (length (col_cells c)) n) 0 df.

Definition pad_column (n : nat) (c : Column) : Column :=
  {| col_name := col_name c;
     col_cells := col_cells c ++ replicate (n - length (col_cells c)) None |}.

(** [pd.concat([a, b], axis=1)] on positionally indexed frames: the columns
    of [a] then those of [b], shorter columns filled with [NaN]. *)
Definition concat_axis1 (a b : DataFrame) : DataFrame :=
  map (pad_column (Nat.max (df_rows a) (df_rows b))) (a ++ b).

(** What [spellcorrect_pipeline] returns (the keys the caller reads). *)
Record PLOut := {
  spell_corrected_dir : string;
  sc_filename : string;
  SBD_dir : string }.

(** What a file holds. *)
Inductive Content :=
| Media
| Audio (samples : string)
| Text (s : string)
| MetaCsv (rows : list MetadataRow)
| KwCsv (df : DataFrame).

(** The part of the outside world the code reads and writes. *)
Record World := {
  dirs : gset string;
  files : gmap string Content;
  clock : nat }.

(** Calls that leave the process, in the order they happen. *)
Inductive Event :=
| LogWarning (msg : string)
| EvNumParameters (m : Model)
| EvSegment (src_dir clip_name : string) (chunk_dur : Z)
| EvValidateCuda
| EvCheckHardware
| EvGcCollect
| EvEmptyCache
| EvModelCall (m : Model) (input_values : string) (attention_mask : bool)
| EvGenerate (m : Model) (input_features : string)
| EvInitNeuspell
| EvInitSymspell
| EvSpellcorrect (dir file method : string) (checker : Checker) (linebyline : bool)
| EvQuickKeys (filepath filename : string) (num_kw max_ngrams : nat)
| EvDigest (dir iden : string)
| EvWriteFile (path : string) (c : Content)
| EvRmtree (path : string)
| EvMove2Completed (dir filename : string).

(** ** The monad: world passing, exceptions, a trace *)

Record outcome (A : Type) := Outcome {
  res : result A;
  world : World;
  trace : list Event }.
Arguments Outcome {A} res world trace.
Arguments res {A} o.
Arguments world {A} o.
Arguments trace {A} o.

Definition M (A : Type) : Type := World -> outcome A.

#[export] Instance M_ret : MRet M := fun A a w => Outcome (Ok a) w [].

#[export] Instance M_bind : MBind M := fun A B f m w =>
  let o := m w in
  match res o with
  | Ok a => let o' := f a (world o) in
            Outcome (res o') (world o') (trace o ++ trace o')
  | Raise e => Outcome (Raise e) (world o) (trace o)
  end.

Definition raise {A} (e : exn) : M A := fun w => Outcome (Raise e) w [].

Definition emit (ev : Event) : M unit := fun w => Outcome (Ok tt) w [ev].

(** Lift a collaborator's answer. *)
Definition of_result {A} (r : result A) : M A := fun w => Outcome r w [].

(** [try: m  except Exception as e: h e] *)
Definition try_except {A} (m : M A) (h : exn -> M A) : M A := fun w =>
  let o := m w in
  match res o with
  | Ok a => o
  | Raise e => let o' := h e (world o) in
               Outcome (res o') (world o') (trace o ++ trace o')
  end.

(** ** Filesystem primitives *)

(** [p] is [d] or lies below it. *)
Definition is_under (d p : string) : bool :=
  String.eqb p d || startswith (d +:+ "/") p.

(** Modelled from the spec: [create_folder(d)] of [v2ct_utils] is not in
    the sources; it creates the directory when it is absent (4.1). *)
Definition create_folder (d : string) : M unit := fun w =>
  Outcome (Ok tt)
    {| dirs := {[ d ]} ∪ dirs w; files := files w; clock := clock w |} [].

(** [open(p, "w")] then a write, or [to_csv(p)]: the file holds [c]
    afterwards. *)
Definition write_file (p : string) (c : Content) : M unit := fun w =>
  Outcome (Ok tt)
    {| dirs := dirs w; files := <[ p := c ]> (files w); clock := clock w |}
    [EvWriteFile p c].

(** [shutil.rmtree(d, ignore_errors=True)]: never raises. *)
Definition rmtree (d : string) : M unit := fun w =>
  Outcome (Ok tt)
    {| dirs := filter (fun p => is_under d p = false) (dirs w);
       files := filter (fun kv : string * Content => is_under d kv.1 = false) (files w);
       clock := clock w |}
    [EvRmtree d].

(** [librosa.load(p, sr=16000)]: the samples of an audio file. *)
Definition librosa_load (p : string) : M string := fun w =>
  match files w !! p with
  | Some (Audio samples) => Outcome (Ok samples) w []
  | _ => Outcome (Raise (FileNotFoundError p)) w []
  end.

(** Drop the prefix [p] from [s], when [s] starts with it. *)
Fixpoint strip_prefix (p s : string) : option string :=
  match p, s with
  | EmptyString, _ => Some s
  | String _ _, EmptyString => None
  | String a p', String b s' => if Ascii.eqb a b then strip_prefix p' s' else None
  end.

(** Modelled from the spec: [find_ext_local(dir, req_ext, full_path=False)]
    of [v2ct_utils] is not in the sources; the spec calls it locating files
    by extension.  It lists the names of the files directly in [dir] whose
    name ends with [req_ext]. *)
Definition find_ext_local (dir req_ext : string) : M (list string) := fun w =>
  Outcome
    (Ok (omap (fun kv : string * Content =>
                 match strip_prefix (dir +:+ "/") kv.1 with
                 | Some name =>
                     if negb (contains "/" name) && endswith req_ext name
                     then Some name else None
                 | None => None
                 end) (map_to_list (files w))))
    w [].

(** ** Collaborators

    Everything [transcribe.py] imports and calls but does not define: the
    [transformers] loaders and models, [torch], and the helpers of
    [audio2text_functions] and [v2ct_utils].  Each is an oracle: a function
    of its arguments that answers with a value or with the exception it
    raises. *)
Record Env := {
  (** [Wav2Vec2Processor.from_pretrained] / [WhisperProcessor.from_pretrained] *)
  processor_from_pretrained : string -> result Processor;
  (** [cls.from_pretrained(hf_id)]: the loaded weights, seen through their
      parameter count. *)
  weights_from_pretrained : ModelClass -> string -> result Z;
  (** [torch.cuda.is_available()] *)
  cuda_is_available : bool;
  (** tokenizer, forward pass, arg-max and [batch_decode] on one chunk,
      with or without the attention mask. *)
  ctc_decode : Model -> string -> bool -> result (list string);
  (** feature extraction, [model.generate] and [batch_decode] on one chunk. *)
  generate_decode : Model -> string -> result (list string);
  (** [corr], the corpus-level normalisation of the joined text. *)
  corr : string -> string;
  (** [trim_fname] *)
  trim_fname : string -> string;
  (** [prep_transc_pydub(clip_name, src_dir, ac_storedir, chunk_dur)]: the
      chunk files it cuts, as (file name, samples), in audio order.  The
      media file does not change during its pass, so the answer is a
      function of the names. *)
  segment : string -> string -> Z -> result (list (string * string));
  (** [init_neuspell()], [init_symspell()]: [None] when they succeed. *)
  neuspell_fault : option exn;
  symspell_fault : option exn;
  (** [spellcorrect_pipeline(dir, file, method, spell_checker, linebyline)] *)
  spellcorrect : string -> string -> string -> Checker -> bool -> result PLOut;
  (** [quick_keys(filepath, filename, num_kw, max_ngrams)] *)
  keywords : string -> string -> nat -> nat -> result DataFrame;
  (** [get_av_fmts()] *)
  av_fmts : list string;
  (** the two folder names of [setup_out_dirs] *)
  t_folder_name : string;
  m_folder_name : string;
  (** the folder [move2completed] moves a finished source file to *)
  completed_folder : string;
  (** [get_timestamp()] renders the reading of the clock. *)
  stamp : nat -> string }.

Section Pipeline.

Variable E : Env.

(** ** Helpers of [v2ct_utils] and [audio2text_functions] seen from here

    None of them is in the sources.  What they do to the world is
    modelled from the specification; what they compute is asked of [E]. *)

(** Modelled from the spec: [get_timestamp()] gives the time of the call
    (4.5: names embed a timestamp so that repeated runs never collide). *)
Definition get_timestamp : M string := fun w =>
  Outcome (Ok (stamp E (clock w))) w [].

(** Modelled from the spec: [create_metadata_df()] makes a blank frame
    with the column names of the persisted schema (6). *)
Definition create_metadata_df : list MetadataRow := [].

(** Modelled from the spec: [setup_out_dirs(directory)] creates the
    transcript and the metadata folder of the output layout (6) and returns
    them as ["t_out"] and ["m_out"]. *)
Definition setup_out_dirs (directory : string) : M (string * string) :=
  let t_path_full := join directory (t_folder_name E) in
  let m_path_full := join directory (m_folder_name E) in
  create_folder t_path_full;;
  create_folder m_path_full;;
  mret (t_path_full, m_path_full).

(** Modelled from the spec: [prep_transc_pydub] fails when the source
    cannot be decoded and otherwise writes the chunk files to the scratch
    directory, later content replacing earlier content of the same name,
    and returns their names in audio order (4.1). *)
Fixpoint write_chunks (ac_storedir : string) (chunks : list (string * string)) : M unit :=
  match chunks with
  | [] => mret tt
  | (name, samples) :: rest =>
      write_file (join ac_storedir name) (Audio samples);;
      write_chunks ac_storedir rest
  end.

(** [prep_transc_pydub(clip_name, src_dir, ac_storedir, chunk_dur)] *)
Definition prep_transc_pydub (clip_name src_dir ac_storedir : string) (chunk_dur : Z)
  : M (list string) :=
  emit (EvSegment src_dir clip_name chunk_dur);;
  chunks ← of_result (segment E src_dir clip_name chunk_dur);
  write_chunks ac_storedir chunks;;
  mret (map fst chunks).

(** [init_neuspell()] and [init_symspell()] give a handle or raise. *)
Definition init_neuspell : M Checker :=
  emit EvInitNeuspell;;
  match neuspell_fault E with
  | None => mret Neuspell
  | Some e => raise e
  end.

Definition init_symspell : M Checker :=
  emit EvInitSymspell;;
  match symspell_fault E with
  | None => mret Symspell
  | Some e => raise e
  end.

(** [spellcorrect_pipeline] and [quick_keys]: a call that is recorded and
    answered by [E]; the files they write are outside the model. *)
Definition spellcorrect_pipeline (dir file method : string) (checker : Checker)
    (linebyline : bool) : M PLOut :=
  emit (EvSpellcorrect dir file method checker linebyline);;
  of_result (spellcorrect E dir file method checker linebyline).

Definition quick_keys (filepath filename : string) (num_kw max_ngrams : nat)
  : M DataFrame :=
  emit (EvQuickKeys filepath filename num_kw max_ngrams);;
  of_result (keywords E filepath filename num_kw max_ngrams).

(** ** [load_whisper_modules], [load_wav2vec2_modules] *)

Definition from_pretrained (cls : ModelClass) (hf_id : string) : M Model :=
  n ← of_result (weights_from_pretrained E cls hf_id);
  mret {| model_class := cls; num_parameters := n; model_hf_id := hf_id |}.

Definition load_whisper_modules (hf_id : string) : M (Processor * Model) :=
  processor ← of_result (processor_from_pretrained E hf_id);
  model ← from_pretrained WhisperForConditionalGeneration hf_id;
  mret (processor, model).

Definition load_wav2vec2_modules (hf_id : string) : M (Processor * Model) :=
  tokenizer ← of_result (processor_from_pretrained E hf_id);
  model ←
    (if contains "wavlm" (lower hf_id) then from_pretrained WavLMForCTC hf_id
     else if contains "hubert" (lower hf_id) then from_pretrained HubertForCTC hf_id
     else from_pretrained Wav2Vec2ForCTC hf_id);
  mret (tokenizer, model).

(** ** [wav2vec2_islarge] *)

Definition approx_sizes : gmap string Z :=
  <[ "base" := 94396320%Z ]> (<[ "large" := 315471520%Z ]> ∅).

Definition isinstance (m : Model) (cls : ModelClass) : bool :=
  match model_class m, cls with
  | Wav2Vec2ForCTC, Wav2Vec2ForCTC
  | HubertForCTC, HubertForCTC
  | WavLMForCTC, WavLMForCTC
  | WhisperForConditionalGeneration, WhisperForConditionalGeneration => true
  | _, _ => false
  end.

Definition wav2vec2_islarge (model_obj : Model) : M bool :=
  if isinstance model_obj HubertForCTC then mret false
  else if negb (isinstance model_obj Wav2Vec2ForCTC) then mret false
  else
    emit (EvNumParameters model_obj);;
    let np_proposed := num_parameters model_obj in
    match approx_sizes !! "base", approx_sizes !! "large" with
    | Some base, Some large =>
        let dist_from_base := Z.abs (np_proposed - base) in
        let dist_from_large := Z.abs (np_proposed - large) in
        mret (if (dist_from_large <? dist_from_base)%Z then true else false)
    | _, _ => raise (TypeError "unsupported operand type(s) for -: 'int' and 'NoneType'")
    end.

(** ** [save_transc_results] *)

Definition save_transc_results (out_dir vid_name ttext : string)
    (mdata : list MetadataRow) : M unit :=
  '(out_p_tscript, out_p_metadata) ← setup_out_dirs out_dir;
  ts ← get_timestamp;
  let header := trim_fname E vid_name +:+ "_vid2txt_" +:+ ts in
  write_file (join out_p_tscript (header +:+ "_full.txt")) (Text ttext);;
  write_file (join out_p_metadata (header +:+ "_metadata.csv")) (MetaCsv mdata).

(** ** The inference loops *)

(** [math.ceil(n / 2)] *)
Definition ceil_half (n : nat) : nat := (n + 1) / 2.

(** [math.ceil(len(chunk_directory) / 2) if len(chunk_directory) > 1 else 1] *)
Definition GPU_update_incr (n : nat) : nat :=
  if (1 <? n)%nat then ceil_half n else 1.

(** The device-monitor checkpoint at the head of the loop body.  Python's
    [i % 0] would raise; [GPU_update_incr] is never 0, so the modulus is
    the one of [nat]. *)
Definition checkpoint (i incr : nat) : M unit :=
  if ((i mod incr =? 0) && negb (incr =? 0))%nat
  then emit EvCheckHardware;; emit EvGcCollect
  else mret tt.

(** [this_transc] joined on the empty string when it is a list, as the
    result of [batch_decode] is. *)
Definition join_if_list (x : list string) : string := str_join EmptyString x.

(** What the two [transcribe_video_*] functions return. *)
Record TranscRes := {
  audio_transcription : list string;
  metadata : list MetadataRow }.

(** The row both functions build after their loop.  The duration is the
    exact quotient; Python rounds it to the nearest double, which is exact
    for a value such as 90 / 60. *)
Definition metadata_row (clip_name : string) (n_chunks : nat) (chunk_dur : Z)
    (ts full_text : string) : MetadataRow :=
  {| md_clip_name := clip_name;
     md_chunk_count := n_chunks;
     md_chunk_dur := chunk_dur;
     md_duration_min := Qmake (Z.of_nat n_chunks * chunk_dur) 60;
     md_timestamp := ts;
     md_full_text := full_text;
     md_num_chars := String.length full_text;
     md_num_words := length (split_on " " full_text) |}.

(** Lines 276-305: [for i, audio_chunk in enumerate(chunk_directory)]. *)
Fixpoint whisper_loop (model : Model) (ac_storedir : string) (incr : nat)
    (i : nat) (chunk_directory : list string) (full_transc : list string)
  : M (list string) :=
  match chunk_directory with
  | [] => mret full_transc
  | audio_chunk :: rest =>
      checkpoint i incr;;
      audio_input ← librosa_load (join ac_storedir audio_chunk);
      emit (EvGenerate model audio_input);;
      decoded ← of_result (generate_decode E model audio_input);
      this_transc ← match decoded with
                    | [] => raise (IndexError "list index out of range")
                    | t :: _ => mret t
                    end;
      (if cuda_is_available E then emit EvEmptyCache else mret tt);;
      whisper_loop model ac_storedir incr (S i) rest
        (full_transc ++ [this_transc +:+ newline])%list
  end.

(** Tail shared by the two functions, lines 311-343 and 437-469. *)
Definition finish_transcription (src_dir clip_name : string) (chunk_dur : Z)
    (ac_storedir : string) (chunk_directory full_transc : list string)
  : M TranscRes :=
  let md_df := create_metadata_df in
  let full_text := corr E (str_join " " full_transc) in
  ts ← get_timestamp;
  let md_df := (md_df ++ [metadata_row clip_name (length chunk_directory)
                            chunk_dur ts full_text])%list in
  save_transc_results src_dir clip_name full_text md_df;;
  rmtree ac_storedir;;
  mret {| audio_transcription := full_transc; metadata := md_df |}.

Definition transcribe_video_whisper (model : Model) (processor : Processor)
    (src_dir clip_name : string) (chunk_dur : Z) (temp_dir : string)
  : M TranscRes :=
  let ac_storedir := join src_dir temp_dir in
  create_folder ac_storedir;;
  chunk_directory ← prep_transc_pydub clip_name src_dir ac_storedir chunk_dur;
  emit EvValidateCuda;;
  emit EvGcCollect;;
  let incr := GPU_update_incr (length chunk_directory) in
  full_transc ← whisper_loop model ac_storedir incr 0 chunk_directory [];
  finish_transcription src_dir clip_name chunk_dur ac_storedir
    chunk_directory full_transc.

(** Lines 394-431. *)
Fixpoint wav2vec_loop (ts_model : Model) (use_attn : bool) (ac_storedir : string)
    (incr : nat) (i : nat) (chunk_directory : list string)
    (full_transc : list string) : M (list string) :=
  match chunk_directory with
  | [] => mret full_transc
  | audio_chunk :: rest =>
      checkpoint i incr;;
      audio_input ← librosa_load (join ac_storedir audio_chunk);
      emit (EvModelCall ts_model audio_input use_attn);;
      decoded ← of_result (ctc_decode E ts_model audio_input use_attn);
      let this_transc := join_if_list decoded in
      (if cuda_is_available E then emit EvEmptyCache else mret tt);;
      wav2vec_loop ts_model use_attn ac_storedir incr (S i) rest
        (full_transc ++ [this_transc +:+ newline])%list
  end.

Definition transcribe_video_wav2vec (ts_model : Model) (ts_tokenizer : Processor)
    (src_dir clip_name : string) (chunk_dur : Z) (temp_dir : string)
  : M TranscRes :=
  let ac_storedir := join src_dir temp_dir in
  create_folder ac_storedir;;
  use_attn ← wav2vec2_islarge ts_model;
  chunk_directory ← prep_transc_pydub clip_name src_dir ac_storedir chunk_dur;
  emit EvValidateCuda;;
  emit EvGcCollect;;
  let incr := GPU_update_incr (length chunk_directory) in
  full_transc ← wav2vec_loop ts_model use_attn ac_storedir incr 0 chunk_directory [];
  finish_transcription src_dir clip_name chunk_dur ac_storedir
    chunk_directory full_transc.

(** ** [postprocess_transc] *)

(** Lines 524-552.  [PL_out] is bound by the first pass of the body:
    [None] is the unbound name. *)
Fixpoint postprocess_loop (tscript_dir spell_correct_method : string)
    (checker : Checker) (linebyline : bool) (txt_files : list string)
    (kw_all_vids : DataFrame) (PL_out : option PLOut)
  : M (DataFrame * option PLOut) :=
  match txt_files with
  | [] => mret (kw_all_vids, PL_out)
  | this_transc :: rest =>
      PL_out ← spellcorrect_pipeline tscript_dir this_transc
                 spell_correct_method checker linebyline;
      let processed_dir := spell_corrected_dir PL_out in
      let kw_name := sc_filename PL_out in
      qk_df ← quick_keys processed_dir kw_name 25 3;
      postprocess_loop tscript_dir spell_correct_method checker linebyline rest
        (concat_axis1 kw_all_vids qk_df) (Some PL_out)
  end.

Definition postprocess_transc (tscript_dir mdata_dir : string)
    (merge_files linebyline : bool) (spell_correct_method : string)
    (checker : option Checker) : M string :=
  checker ← match checker with
            | Some c => mret c
            | None => if String.eqb (lower spell_correct_method) "neuspell"
                      then init_neuspell else init_symspell
            end;
  (if merge_files then
     ts ← get_timestamp;
     emit (EvDigest tscript_dir ("orig_transc_" +:+ ts));;
     ts ← get_timestamp;
     emit (EvDigest mdata_dir ("meta_" +:+ ts))
   else mret tt);;
  txt_files ← find_ext_local tscript_dir ".txt";
  '(kw_all_vids, PL_out) ← postprocess_loop tscript_dir spell_correct_method
                             checker linebyline txt_files [] None;
  ts ← get_timestamp;
  let kwdb_fname := "YAKE - all keywords for run at " +:+ ts +:+ ".csv" in
  write_file (join tscript_dir kwdb_fname) (KwCsv kw_all_vids);;
  match PL_out with
  | Some p => mret (SBD_dir p)
  | None => raise (UnboundLocalError "PL_out")
  end.

(** ** [transcribe_dir] *)

(** [f"{e}"] *)
Definition exn_str (e : exn) : string :=
  match e with
  | NameError name => "name '" +:+ name +:+ "' is not defined"
  | UnboundLocalError name =>
      "local variable '" +:+ name +:+ "' referenced before assignment"
  | AttributeError msg | TypeError msg | IndexError msg => msg
  | FileNotFoundError path => "No such file or directory: '" +:+ path +:+ "'"
  | Failure _ msg => msg
  end.

(** Lines 610-625: the choice of the spell checker.  Returns the updated
    [base_spelling] with the handle. *)
Definition acquire_checker (base_spelling : bool) : M (bool * Checker) :=
  if base_spelling then
    checker ← init_symspell;
    mret (base_spelling, checker)
  else
    try_except
      (checker ← init_neuspell;
       mret (base_spelling, checker))
      (fun e =>
         emit (LogWarning
           "Failed loading NeuSpell spellchecker, reverting to basic spellchecker");;
         emit (LogWarning (exn_str e));;
         let base_spelling := true in
         checker ← init_symspell;
         mret (base_spelling, checker)).

(** Lines 629-631. *)
Fixpoint find_approved_files (directory : string) (exts : list string)
  : M (list string) :=
  match exts with
  | [] => mret []
  | ext :: rest =>
      found ← find_ext_local directory ext;
      more ← find_approved_files directory rest;
      mret (found ++ more)%list
  end.

(** Modelled from the spec: [move2completed(directory, filename)] moves
    the finished source file out of the input directory (6), into the
    completed folder. *)
Definition move2completed (directory filename : string) : M unit := fun w =>
  let src := join directory filename in
  let dst_dir := join directory (completed_folder E) in
  Outcome (Ok tt)
    {| dirs := {[ dst_dir ]} ∪ dirs w;
       files := match files w !! src with
                | Some c => <[ join dst_dir filename := c ]> (delete src (files w))
                | None => files w
                end;
       clock := clock w |}
    [EvMove2Completed directory filename].

(** One pass of the loop of lines 636-660. *)
Definition transcribe_one (_is_whisper : bool) (model : Model)
    (processor : Processor) (directory : string) (chunk_length : Z)
    (move_comp : bool) (filename : string) : M unit :=
  t_results ←
    (if _is_whisper
     then transcribe_video_whisper model processor directory filename
            chunk_length "audio_chunks"
     else transcribe_video_wav2vec model processor directory filename
            chunk_length "audio_chunks");
  if move_comp then move2completed directory filename else mret tt.

(** Lines 636-660: [for filename in approved_files]. *)
Fixpoint transcribe_files (_is_whisper : bool) (model : Model)
    (processor : Processor) (directory : string) (chunk_length : Z)
    (move_comp : bool) (approved_files : list string) : M unit :=
  match approved_files with
  | [] => mret tt
  | filename :: rest =>
      transcribe_one _is_whisper model processor directory chunk_length
        move_comp filename;;
      transcribe_files _is_whisper model processor directory chunk_length
        move_comp rest
  end.

(** [os.path.abspath] of a path that is already absolute. *)
Definition abspath (p : string) : string := p.

(** What lines 587-635 establish before the first file is transcribed. *)
Record RunContext := {
  ctx_is_whisper : bool;
  ctx_processor : Processor;
  ctx_model : Model;
  ctx_base_spelling : bool;
  ctx_checker : Checker;
  ctx_approved_files : list string;
  ctx_t_out : string;
  ctx_m_out : string }.

(** Lines 587-635: the decoding variant, the models, the spell checker,
    the input files and the output folders. *)
Definition transcribe_dir_setup (directory : string) (model_id : option string)
    (base_spelling : bool) : M RunContext :=
  _is_whisper ← match model_id with
                | Some s => mret (contains "whisper" (lower s))
                | None => raise (AttributeError
                            "'NoneType' object has no attribute 'lower'")
                end;
  let model := match model_id with
               | None => "facebook/hubert-large-ls960-ft"
               | Some s => s
               end in
  '(processor, model) ←
    (if _is_whisper : bool then raise (NameError "laod_whisper_modules")
     else load_wav2vec2_modules model);
  '(base_spelling, checker) ← acquire_checker base_spelling;
  approved_files ← find_approved_files directory (av_fmts E);
  '(out_p_tscript, out_p_metadata) ← setup_out_dirs directory;
  mret {| ctx_is_whisper := _is_whisper;
          ctx_processor := processor;
          ctx_model := model;
          ctx_base_spelling := base_spelling;
          ctx_checker := checker;
          ctx_approved_files := approved_files;
          ctx_t_out := out_p_tscript;
          ctx_m_out := out_p_metadata |}.

Definition transcribe_dir (input_dir : string) (chunk_length : Z)
    (model_id : option string) (basic_spelling move_comp join_text verbose : bool)
  : M (string * string) :=
  let directory := abspath input_dir in
  let linebyline := negb join_text in
  let base_spelling := basic_spelling in
  ctx ← transcribe_dir_setup directory model_id base_spelling;
  transcribe_files (ctx_is_whisper ctx) (ctx_model ctx) (ctx_processor ctx)
    directory chunk_length move_comp (ctx_approved_files ctx);;
  processed_dir ← postprocess_transc (ctx_t_out ctx) (ctx_m_out ctx) false
                    linebyline
                    (if ctx_base_spelling ctx then "symspell" else "neuspell")
                    (Some (ctx_checker ctx));
  mret (processed_dir, ctx_m_out ctx).

End Pipeline.

Arguments finish_transcription : simpl never.
Arguments prep_transc_pydub : simpl never.
Arguments wav2vec2_islarge : simpl never.

(** ** Observations on worlds and traces *)

(** The scratch directory [d] is gone: neither it nor anything below it is
    left. *)
Definition scratch_absent (w : World) (d : string) : Prop :=
  ∀ p, is_under d p = true → (p ∉ dirs w) ∧ (files w !! p = None).

(** The chunk files of a recording once [write_chunks] has run. *)
Definition with_chunks (ac_storedir : string) (chunks : list (string * string))
    (fs : gmap string Content) : gmap string Content :=
  foldl (fun fs c => <[ join ac_storedir c.1 := Audio c.2 ]> fs) fs chunks.

(** The world a call leaves behind, seen at a later time. *)
Definition later (now : nat) (w : World) : World :=
  {| dirs := dirs w; files := files w; clock := now |}.

(** A row with its timestamp replaced. *)
Definition with_timestamp (ts : string) (row : MetadataRow) : MetadataRow :=
  {| md_clip_name := md_clip_name row;
     md_chunk_count := md_chunk_count row;
     md_chunk_dur := md_chunk_dur row;
     md_duration_min := md_duration_min row;
     md_timestamp := ts;
     md_full_text := md_full_text row;
     md_num_chars := md_num_chars row;
     md_num_words := md_num_words row |}.

(** *** Event classes *)

(** Every event of [m] satisfies [P], from whatever world it starts and
    whether it returns or raises. *)
Definition emits {A} (P : Event → Prop) (m : M A) : Prop :=
  ∀ w, Forall P (trace (m w)).

(** A chunk handed to the acoustic model. *)
Definition is_model_event (ev : Event) : bool :=
  match ev with
  | EvModelCall _ _ _ | EvGenerate _ _ => true
  | _ => false
  end.


(** The events of the inference stage that are no model call: segmenter,
    device monitor, file system. *)
Definition is_housekeeping_event (ev : Event) : bool :=
  match ev with
  | EvSegment _ _ _ | EvValidateCuda | EvCheckHardware | EvGcCollect
  | EvEmptyCache | EvWriteFile _ _ | EvRmtree _ | EvMove2Completed _ _ => true
  | _ => false
  end.

(** The events of the per-file inference stage. *)
Definition is_inference_event (ev : Event) : bool :=
  match ev with
  | EvNumParameters _ | EvSegment _ _ _ | EvValidateCuda | EvCheckHardware
  | EvGcCollect | EvEmptyCache | EvModelCall _ _ _ | EvGenerate _ _
  | EvWriteFile _ _ | EvRmtree _ | EvMove2Completed _ _ => true
  | _ => false
  end.

(** No call of [model.generate]: the generative loop did not run. *)
Definition no_generate (ev : Event) : Prop :=
  match ev with
  | EvGenerate _ _ => False
  | _ => True
  end.

(** *** The device monitor *)


(** The chunk indices at which the device-monitor checkpoint fired: a
    hardware report followed by a memory-reclaim cycle, tagged with the
    number of chunks already handed to the model. *)
Fixpoint checkpoint_indices (i : nat) (tr : list Event) : list nat :=
  match tr with
  | [] => []
  | EvCheckHardware :: tr' =>
      match tr' with
      | EvGcCollect :: _ => i :: checkpoint_indices i tr'
      | _ => checkpoint_indices i tr'
      end
  | EvModelCall _ _ _ :: tr' | EvGenerate _ _ :: tr' => checkpoint_indices (S i) tr'
  | _ :: tr' => checkpoint_indices i tr'
  end.

(** *** The attention mask *)

(** The attention-mask flags of the model calls of a trace. *)
Definition attention_flags (tr : list Event) : list bool :=
  omap (fun ev => match ev with
                  | EvModelCall _ _ b => Some b
                  | _ => None
                  end) tr.

(** A call of [model_obj.num_parameters()]. *)
Definition is_num_parameters_event (ev : Event) : bool :=
  match ev with
  | EvNumParameters _ => true
  | _ => false
  end.

(** How often the parameter count of a model was asked for. *)
Definition count_num_parameters (tr : list Event) : nat :=
  length (List.filter is_num_parameters_event tr).

(** A model call of the CTC loop passes the attention mask exactly when
    [flag] says so, and the parameter count is not asked for again. *)
Definition mask_follows (flag : bool) (ev : Event) : Prop :=
  match ev with
  | EvModelCall _ _ b => b = flag
  | EvNumParameters _ => False
  | _ => True
  end.

(** *** The batch, the spell checker, the keywords *)

(** The recordings handed to the segmenter, in order. *)
Definition segmented_clips (tr : list Event) : list string :=
  omap (fun ev => match ev with
                  | EvSegment _ clip _ => Some clip
                  | _ => None
                  end) tr.

(** The method and the handle of every [spellcorrect_pipeline] call. *)
Definition spellcorrect_calls (tr : list Event) : list (string * Checker) :=
  omap (fun ev => match ev with
                  | EvSpellcorrect _ _ method checker _ => Some (method, checker)
                  | _ => None
                  end) tr.

(** How often the advanced corrector was initialised. *)
Definition count_init_neuspell (tr : list Event) : nat :=
  length (List.filter (fun ev => match ev with
                                 | EvInitNeuspell => true
                                 | _ => false
                                 end) tr).

(** An event that is no initialisation of the advanced corrector and, if
    it is a [spellcorrect_pipeline] call, uses the given method and handle. *)
Definition keeps_checker (method : string) (c : Checker) (ev : Event) : Prop :=
  match ev with
  | EvSpellcorrect _ _ method' c' _ => method' = method ∧ c' = c
  | EvInitNeuspell => False
  | _ => True
  end.

(** The two warnings of the fallback. *)
Definition fallback_warnings (e : exn) : list Event :=
  [LogWarning "Failed loading NeuSpell spellchecker, reverting to basic spellchecker";
   LogWarning (exn_str e)].

(** The keyword tables written to disk, in order. *)
Definition keyword_db_writes (tr : list Event) : list DataFrame :=
  omap (fun ev => match ev with
                  | EvWriteFile _ (KwCsv df) => Some df
                  | _ => None
                  end) tr.

(** The [num_kw] and [max_ngrams] of every [quick_keys] call. *)
Definition quick_keys_params (tr : list Event) : list (nat * nat) :=
  omap (fun ev => match ev with
                  | EvQuickKeys _ _ num_kw max_ngrams => Some (num_kw, max_ngrams)
                  | _ => None
                  end) tr.

(** The transcript files handed to [spellcorrect_pipeline], in order. *)
Definition spellcorrected_files (tr : list Event) : list string :=
  omap (fun ev => match ev with
                  | EvSpellcorrect _ file _ _ _ => Some file
                  | _ => None
                  end) tr.

(** What one pass of the postprocess loop gets from its two collaborators
    for the transcript [file]: the keyword table [df]. *)
Definition keyword_table_of (E : Env) (tscript_dir method : string) (c : Checker)
    (linebyline : bool) (file : string) (df : DataFrame) : Prop :=
  ∃ pl, spellcorrect E tscript_dir file method c linebyline = Ok pl ∧
        keywords E (spell_corrected_dir pl) (sc_filename pl) 25 3 = Ok df.

(** ** The specification's own words

    Three places where a claim compares the code with a rule of the
    specification; each rule is written down here as the specification
    states it. *)

(** The specification's rule for the attention mask, in its own words: a
    plain wav2vec2 model whose parameter count is strictly closer to the
    large reference than to the base reference. *)
Definition spec_use_masking (m : Model) : bool :=
  match model_class m with
  | Wav2Vec2ForCTC =>
      bool_decide (Z.abs (num_parameters m - 315471520) <
                   Z.abs (num_parameters m - 94396320))%Z
  | _ => false
  end.

(** The chunk indices at which the cadence of the specification asks for
    a checkpoint: the multiples of [ceil(N / 2)] below [N]. *)
Definition spec_checkpoints (N : nat) : list nat :=
  List.filter (fun k => (k mod ceil_half N =? 0)%nat) (seq 0 N).

(** Modelled from the spec: [prep_transc_pydub] of [audio2text_functions]
    is not in the sources.  The spec (4.1, 8) has it split a recording of
    [T] seconds into consecutive chunks of [D] seconds, the last one
    possibly shorter: [ceil(T / D)] chunks. *)
Definition spec_chunk_count (T D : nat) : nat := (T + D - 1) / D.

(** Modelled from the spec: the durations of those chunks, in order. *)
Fixpoint spec_chunk_durations (fuel T D : nat) : list nat :=
  match fuel with
  | 0 => []
  | S fuel' =>
      if (T =? 0)%nat then []
      else if (T <=? D)%nat then [T]
      else D :: spec_chunk_durations fuel' (T - D) D
  end.

(** ** A concrete environment for the examples *)

(** The recordings the example segmenter knows, with their length in
    seconds. *)
Definition example_durations : gmap string nat :=
  <[ "lecture.mp3" := 65 ]> (<[ "talk.mp3" := 50 ]> (<[ "noisy.mp3" := 40 ]>
    (<[ "interview.mp4" := 20 ]> ∅))).

(** Chunk [i] of a recording, [d] seconds long; the second chunk of
    [noisy.mp3] is the one the example decoder fails on. *)
Definition example_chunk (clip : string) (i d : nat) : string * string :=
  ("chunk_" +:+ pretty i +:+ ".wav",
   if String.eqb clip "noisy.mp3" && (i =? 1)%nat then "<noise>"
   else clip +:+ " part " +:+ pretty i +:+ " of " +:+ pretty d +:+ " s").

(** The example segmenter cuts the recordings it knows as the
    specification says and fails on every other file. *)
Definition example_segment (src_dir clip : string) (chunk_dur : Z)
  : result (list (string * string)) :=
  match example_durations !! clip with
  | Some T =>
      if (0 <? chunk_dur)%Z then
        Ok (imap (example_chunk clip)
              (spec_chunk_durations T T (Z.to_nat chunk_dur)))
      else Raise (Failure "prep_transc_pydub" "chunk duration must be positive")
  | None => Raise (Failure "prep_transc_pydub" ("cannot decode " +:+ clip))
  end.

(** A deterministic decoder. *)
Definition example_decode (samples : string) : result (list string) :=
  if String.eqb samples "<noise>"
  then Raise (Failure "model" "CUDA out of memory")
  else Ok [lower samples].

(** A two-column keyword table. *)
Definition keywords_of_example (file : string) : DataFrame :=
  [ {| col_name := file; col_cells := [Some "speech"; Some "audio"] |};
    {| col_name := "score"; col_cells := [Some "0.1"; Some "0.2"] |} ].

(** The example environment, with the faults of the two spell checkers
    left open. *)
Definition example_env (neuspell symspell : option exn) : Env :=
  {| processor_from_pretrained := fun id => Ok {| processor_hf_id := id |};
     weights_from_pretrained := fun cls id =>
       Ok (if contains "large" id then 315471520%Z else 94396320%Z);
     cuda_is_available := false;
     ctc_decode := fun _ samples _ => example_decode samples;
     generate_decode := fun _ samples => example_decode samples;
     corr := fun s => s;
     trim_fname := fun s => s;
     segment := example_segment;
     neuspell_fault := neuspell;
     symspell_fault := symspell;
     spellcorrect := fun dir file _ _ _ =>
       Ok {| spell_corrected_dir := join dir "corrected";
             sc_filename := "corrected_" +:+ file;
             SBD_dir := join dir "sentences" |};
     keywords := fun _ file _ _ => Ok (keywords_of_example file);
     av_fmts := [".mp3"; ".mp4"];
     t_folder_name := "v2clntxt_transcriptions";
     m_folder_name := "v2clntxt_transc_metadata";
     completed_folder := "completed";
     stamp := fun n => "run-" +:+ pretty n |}.

(** A world whose input directory [/in] holds the given media files. *)
Definition world_with (media : list string) (now : nat) : World :=
  {| dirs := {[ "/in" ]};
     files := list_to_map (map (fun f => (join "/in" f, Media)) media);
     clock := now |}.

(** A transcript folder with two transcripts. *)
Definition transcripts_world : World :=
  {| dirs := {[ "/out" ]};
     files := list_to_map [("/out/a_full.txt", Text "good morning");
                           ("/out/b_full.txt", Text "good night")];
     clock := 3 |}.

(** The two reference models of [approx_sizes]. *)
Definition base_model : Model :=
  {| model_class := Wav2Vec2ForCTC; num_parameters := 94396320;
     model_hf_id := "facebook/wav2vec2-base-960h" |}.

Definition large_model : Model :=
  {| model_class := Wav2Vec2ForCTC; num_parameters := 315471520;
     model_hf_id := "facebook/wav2vec2-large-960h-lv60-self" |}.

Definition base_processor : Processor :=
  {| processor_hf_id := "facebook/wav2vec2-base-960h" |}.

(** ** Observations for the further properties *)

(** The device-monitor and device-memory events. *)
Definition is_device_event (ev : Event) : bool :=
  match ev with
  | EvValidateCuda | EvCheckHardware | EvGcCollect | EvEmptyCache => true
  | _ => false
  end.

(** What [save_transc_results] and [postprocess_transc] persist, as opposed
    to the audio chunks of the scratch directory. *)
Definition is_output_content (c : Content) : bool :=
  match c with
  | Text _ | MetaCsv _ | KwCsv _ => true
  | _ => false
  end.

(** The paths of the outputs written, in order. *)
Definition persisted_outputs (tr : list Event) : list string :=
  omap (fun ev => match ev with
                  | EvWriteFile p c => if is_output_content c then Some p else None
                  | _ => None
                  end) tr.

(** The source files moved to the completed folder, in order. *)
Definition moved_files (tr : list Event) : list string :=
  omap (fun ev => match ev with
                  | EvMove2Completed _ f => Some f
                  | _ => None
                  end) tr.

(** A model call passes the attention mask exactly when [flag] says so. *)
Definition mask_is (flag : bool) (ev : Event) : Prop :=
  match ev with
  | EvModelCall _ _ b => b = flag
  | _ => True
  end.

(** The header of the two output files of [save_transc_results] and their
    paths. *)
Definition output_header (E : Env) (vid_name ts : string) : string :=
  trim_fname E vid_name +:+ "_vid2txt_" +:+ ts.

Definition transcript_path (E : Env) (out_dir vid_name ts : string) : string :=
  join (join out_dir (t_folder_name E)) (output_header E vid_name ts +:+ "_full.txt").

Definition metadata_path (E : Env) (out_dir vid_name ts : string) : string :=
  join (join out_dir (m_folder_name E))
       (output_header E vid_name ts +:+ "_metadata.csv").

(** The last character of a string. *)
Fixpoint last_char (s : string) : option ascii :=
  match s with
  | EmptyString => None
  | String c EmptyString => Some c
  | String _ s' => last_char s'
  end.

(** The class [load_wav2vec2_modules] asks [transformers] for. *)
Definition ctc_class_of (hf_id : string) : ModelClass :=
  if contains "wavlm" (lower hf_id) then WavLMForCTC
  else if contains "hubert" (lower hf_id) then HubertForCTC
  else Wav2Vec2ForCTC.

(** An event that persists no output. *)
Definition no_output (ev : Event) : Prop :=
  match ev with
  | EvWriteFile _ c => is_output_content c = false
  | _ => True
  end.

(** An environment with another segmenter. *)
Definition with_segment (E : Env)
    (seg : string -> string -> Z -> result (list (string * string))) : Env :=
  {| processor_from_pretrained := processor_from_pretrained E;
     weights_from_pretrained := weights_from_pretrained E;
     cuda_is_available := cuda_is_available E;
     ctc_decode := ctc_decode E;
     generate_decode := generate_decode E;
     corr := corr E;
     trim_fname := trim_fname E;
     segment := seg;
     neuspell_fault := neuspell_fault E;
     symspell_fault := symspell_fault E;
     spellcorrect := spellcorrect E;
     keywords := keywords E;
     av_fmts := av_fmts E;
     t_folder_name := t_folder_name E;
     m_folder_name := m_folder_name E;
     completed_folder := completed_folder E;
     stamp := stamp E |}.

(** An event that is neither a call of the segmenter nor a move of a
    source file. *)
Definition no_file_marker (ev : Event) : Prop :=
  match ev with
  | EvSegment _ _ _ | EvMove2Completed _ _ => False
  | _ => True
  end.

(** A Whisper checkpoint and its processor, and a segmenter that finds
    nothing to cut. *)
Definition whisper_model : Model :=
  {| model_class := WhisperForConditionalGeneration; num_parameters := 72593920;
     model_hf_id := "openai/whisper-base.en" |}.

Definition whisper_processor : Processor :=
  {| processor_hf_id := "openai/whisper-base.en" |}.

Definition silent_env : Env :=
  with_segment (example_env None None) (fun _ _ _ => Ok []).

(** A call of [spellcorrect_pipeline] names the method its handle belongs
    to. *)
Definition method_matches_handle (ev : Event) : Prop :=
  match ev with
  | EvSpellcorrect _ _ method checker _ =>
      (method = "symspell" ∧ checker = Symspell) ∨
      (method = "neuspell" ∧ checker = Neuspell)
  | _ => True
  end.


(** An environment with another [spellcorrect_pipeline], and one whose
    pipeline cannot read the transcript [a_full.txt]. *)
Definition with_spellcorrect (E : Env)
    (sc : string -> string -> string -> Checker -> bool -> result PLOut) : Env :=
  {| processor_from_pretrained := processor_from_pretrained E;
     weights_from_pretrained := weights_from_pretrained E;
     cuda_is_available := cuda_is_available E;
     ctc_decode := ctc_decode E;
     generate_decode := generate_decode E;
     corr := corr E;
     trim_fname := trim_fname E;
     segment := segment E;
     neuspell_fault := neuspell_fault E;
     symspell_fault := symspell_fault E;
     spellcorrect := sc;
     keywords := keywords E;
     av_fmts := av_fmts E;
     t_folder_name := t_folder_name E;
     m_folder_name := m_folder_name E;
     completed_folder := completed_folder E;
     stamp := stamp E |}.

Definition unreadable_transcript_env : Env :=
  with_spellcorrect (example_env None None)
    (fun dir file method c linebyline =>
       if String.eqb file "a_full.txt"
       then Raise (Failure "spellcorrect_pipeline" "cannot decode a_full.txt")
       else spellcorrect (example_env None None) dir file method c linebyline).

(** A transcript folder with a third transcript. *)
Definition three_transcripts_world : World :=
  {| dirs := {[ "/out" ]};
     files := list_to_map [("/out/a_full.txt", Text "good morning");
                           ("/out/b_full.txt", Text "good night");
                           ("/out/c_full.txt", Text "good day")];
     clock := 3 |}.

(** * Proofs *)

(** ** The definitions at work *)

Example lower_example : lower "OpenAI/Whisper-Base.EN" = "openai/whisper-base.en".
Proof. reflexivity. Qed.

Example contains_example :
  contains "whisper" "openai/whisper-base.en" = true ∧
  contains "whisper" "facebook/wav2vec2-base-960h" = false.
Proof. split; reflexivity. Qed.

Example str_join_example : str_join " " ["a"; "b"; "c"] = "a b c".
Proof. reflexivity. Qed.

Example split_on_example :
  split_on " " "a  b c" = ["a"; EmptyString; "b"; "c"] ∧
  split_on " " EmptyString = [EmptyString].
Proof. split; reflexivity. Qed.

Example GPU_update_incr_example :
  map GPU_update_incr [0; 1; 2; 3; 4; 5] = [1; 1; 1; 2; 2; 3].
Proof. reflexivity. Qed.

Example spec_checkpoints_example :
  spec_checkpoints 1 = [0] ∧ spec_checkpoints 2 = [0; 1] ∧
  spec_checkpoints 3 = [0; 2] ∧ spec_checkpoints 5 = [0; 3].
Proof. repeat split; reflexivity. Qed.

Example spec_chunk_durations_example :
  spec_chunk_durations 65 65 30 = [30; 30; 5] ∧ spec_chunk_count 65 30 = 3 ∧
  spec_chunk_durations 60 60 30 = [30; 30] ∧ spec_chunk_count 60 30 = 2.
Proof. repeat split; reflexivity. Qed.

(** The midpoint of the two reference sizes is as far from one as from the
    other: the comparison is strict, so no masking. *)
Example spec_use_masking_example :
  spec_use_masking large_model = true ∧
  spec_use_masking base_model = false ∧
  spec_use_masking {| model_class := Wav2Vec2ForCTC; num_parameters := 204933920;
                      model_hf_id := "midpoint" |} = false ∧
  spec_use_masking {| model_class := Wav2Vec2ForCTC; num_parameters := 204933921;
                      model_hf_id := "just above" |} = true ∧
  spec_use_masking {| model_class := HubertForCTC; num_parameters := 315471520;
                      model_hf_id := "facebook/hubert-large-ls960-ft" |} = false.
Proof. repeat split; reflexivity. Qed.

(** Column-wise concatenation pads the shorter table. *)
Example concat_axis1_example :
  concat_axis1 [ {| col_name := "a"; col_cells := [Some "x"; Some "y"] |} ]
               [ {| col_name := "b"; col_cells := [Some "z"] |} ] =
  [ {| col_name := "a"; col_cells := [Some "x"; Some "y"] |};
    {| col_name := "b"; col_cells := [Some "z"; None] |} ].
Proof. reflexivity. Qed.

(** ** The monad *)

Lemma bind_unfold {A B} (m : M A) (f : A -> M B) (w : World) :
  (m ≫= f) w =
  match res (m w) with
  | Ok a => Outcome (res (f a (world (m w)))) (world (f a (world (m w))))
              (trace (m w) ++ trace (f a (world (m w))))
  | Raise e => Outcome (Raise e) (world (m w)) (trace (m w))
  end.
Proof. reflexivity. Qed.

Lemma bind_ok {A B} (m : M A) (f : A -> M B) (w : World) (a : A) :
  res (m w) = Ok a →
  (m ≫= f) w = Outcome (res (f a (world (m w)))) (world (f a (world (m w))))
                 (trace (m w) ++ trace (f a (world (m w)))).
Proof. intros H. rewrite bind_unfold, H. reflexivity. Qed.

Lemma bind_raise {A B} (m : M A) (f : A -> M B) (w : World) (e : exn) :
  res (m w) = Raise e →
  (m ≫= f) w = Outcome (Raise e) (world (m w)) (trace (m w)).
Proof. intros H. rewrite bind_unfold, H. reflexivity. Qed.

(** A bind that returns went through both of its halves. *)
Lemma bind_res_ok {A B} (m : M A) (f : A -> M B) (w : World) (b : B) :
  res ((m ≫= f) w) = Ok b →
  ∃ a, res (m w) = Ok a ∧ res (f a (world (m w))) = Ok b.
Proof.
  rewrite bind_unfold. destruct (res (m w)) as [a|e]; simpl; intros H.
  - exists a. split; [reflexivity | exact H].
  - discriminate H.
Qed.

Lemma outcome_eta {A} (o : outcome A) : Outcome (res o) (world o) (trace o) = o.
Proof. destruct o; reflexivity. Qed.

(** ** Arithmetic of the checkpoint cadence *)




(** ** Primitive steps *)

Section Steps.

Variable E : Env.

Lemma checkpoint_world i incr w : world (checkpoint i incr w) = w.
Proof. unfold checkpoint. destruct (_ && _); reflexivity. Qed.

Lemma checkpoint_res i incr w : res (checkpoint i incr w) = Ok tt.
Proof. unfold checkpoint. destruct (_ && _); reflexivity. Qed.

Lemma librosa_load_world p w : world (librosa_load p w) = w.
Proof. unfold librosa_load. destruct (files w !! p) as [[]|]; reflexivity. Qed.

Lemma librosa_load_trace p w : trace (librosa_load p w) = [].
Proof. unfold librosa_load. destruct (files w !! p) as [[]|]; reflexivity. Qed.

Lemma empty_cache_world w :
  world ((if cuda_is_available E then emit EvEmptyCache else mret tt) w) = w.
Proof. destruct (cuda_is_available E); reflexivity. Qed.

Lemma empty_cache_res w :
  res ((if cuda_is_available E then emit EvEmptyCache else mret tt) w) = Ok tt.
Proof. destruct (cuda_is_available E); reflexivity. Qed.

(** The loops read chunk files and call the model: they leave the world
    as it is. *)
Lemma wav2vec_loop_world chunks : ∀ m ua d incr i acc w,
  world (wav2vec_loop E m ua d incr i chunks acc w) = w.
Proof.
  induction chunks as [|c rest IH]; intros; simpl; [reflexivity|].
  rewrite bind_unfold, checkpoint_res, checkpoint_world. simpl.
  rewrite bind_unfold, librosa_load_world.
  destruct (res (librosa_load _ w)) as [a|e]; simpl; [|reflexivity].
  destruct (ctc_decode E m a ua) as [dec|e]; simpl; [|reflexivity].
  rewrite bind_unfold, empty_cache_res, empty_cache_world. simpl.
  apply IH.
Qed.

Lemma whisper_loop_world chunks : ∀ m d incr i acc w,
  world (whisper_loop E m d incr i chunks acc w) = w.
Proof.
  induction chunks as [|c rest IH]; intros; simpl; [reflexivity|].
  rewrite bind_unfold, checkpoint_res, checkpoint_world. simpl.
  rewrite bind_unfold, librosa_load_world.
  destruct (res (librosa_load _ w)) as [a|e]; simpl; [|reflexivity].
  destruct (generate_decode E m a) as [[|t dec]|e]; simpl; try reflexivity.
  rewrite bind_unfold, empty_cache_res, empty_cache_world. simpl.
  apply IH.
Qed.

Lemma approx_sizes_base : approx_sizes !! "base" = Some 94396320%Z.
Proof. reflexivity. Qed.

Lemma approx_sizes_large : approx_sizes !! "large" = Some 315471520%Z.
Proof. reflexivity. Qed.

(** [wav2vec2_islarge] never raises, changes nothing, and answers with
    the specification's rule. *)
Lemma wav2vec2_islarge_run (m : Model) (w : World) :
  wav2vec2_islarge m w =
  Outcome (Ok (spec_use_masking m)) w
    (match model_class m with Wav2Vec2ForCTC => [EvNumParameters m] | _ => [] end).
Proof.
  unfold wav2vec2_islarge, spec_use_masking, isinstance.
  destruct (model_class m); simpl; try reflexivity.
  rewrite approx_sizes_base, approx_sizes_large.
  unfold mbind, M_bind, emit, mret, M_ret; simpl.
  case_bool_decide as Hd.
  - apply Z.ltb_lt in Hd. rewrite Hd. reflexivity.
  - apply Z.ltb_nlt in Hd. rewrite Hd. reflexivity.
Qed.

Lemma write_chunks_run d chunks : ∀ w,
  write_chunks d chunks w =
  Outcome (Ok tt)
    {| dirs := dirs w; files := with_chunks d chunks (files w); clock := clock w |}
    (map (fun c => EvWriteFile (join d c.1) (Audio c.2)) chunks).
Proof.
  induction chunks as [|[n s] rest IH]; intros w.
  - destruct w; reflexivity.
  - simpl. rewrite bind_unfold. simpl. rewrite IH. reflexivity.
Qed.

Lemma prep_transc_pydub_run clip src d dur w :
  prep_transc_pydub E clip src d dur w =
  match segment E src clip dur with
  | Ok chunks =>
      Outcome (Ok (map fst chunks))
        {| dirs := dirs w; files := with_chunks d chunks (files w);
           clock := clock w |}
        (EvSegment src clip dur ::
         map (fun c => EvWriteFile (join d c.1) (Audio c.2)) chunks)
  | Raise e => Outcome (Raise e) w [EvSegment src clip dur]
  end.
Proof.
  unfold prep_transc_pydub. rewrite bind_unfold. simpl.
  destruct (segment E src clip dur) as [chunks|e]; simpl; [|reflexivity].
  rewrite bind_unfold, write_chunks_run. simpl. rewrite app_nil_r. reflexivity.
Qed.

End Steps.

(** ** Scratch-directory lifecycle (C1) *)

Section Scratch.

Variable E : Env.

Lemma filtered_scratch_absent d (D : gset string) (F : gmap string Content) c :
  scratch_absent
    {| dirs := filter (fun p => is_under d p = false) D;
       files := filter (fun kv : string * Content => is_under d kv.1 = false) F;
       clock := c |} d.
Proof.
  intros p Hp. simpl. split.
  - rewrite elem_of_filter. intros [Hn _]. congruence.
  - apply map_lookup_filter_None. right. intros x _. simpl. congruence.
Qed.

(** Once the loop is over nothing raises any more, and the last step that
    touches the filesystem is the [rmtree]. *)
Lemma finish_transcription_res src clip dur d chunks full w :
  res (finish_transcription E src clip dur d chunks full w) =
  Ok {| audio_transcription := full;
        metadata := [metadata_row clip (length chunks) dur
                       (stamp E (clock w))
                       (corr E (str_join " " full))] |}.
Proof. reflexivity. Qed.

Lemma finish_transcription_absent src clip dur d chunks full w :
  scratch_absent (world (finish_transcription E src clip dur d chunks full w)) d.
Proof. apply filtered_scratch_absent. Qed.

(** C1, as the code has it: the scratch directory is gone whenever the
    call returns, and is still there whenever the call raises (the
    [rmtree] is the last statement of the function body, not a [finally]
    clause); for both decoding variants. *)
Theorem scratch_removed_on_return_kept_on_raise
    (model : Model) (processor : Processor) (src_dir clip_name : string)
    (chunk_dur : Z) (temp_dir : string) (w : World) :
  let d := join src_dir temp_dir in
  let o1 := transcribe_video_wav2vec E model processor src_dir clip_name
              chunk_dur temp_dir w in
  let o2 := transcribe_video_whisper E model processor src_dir clip_name
              chunk_dur temp_dir w in
  match res o1 with
  | Ok _ => scratch_absent (world o1) d
  | Raise _ => d ∈ dirs (world o1)
  end ∧
  match res o2 with
  | Ok _ => scratch_absent (world o2) d
  | Raise _ => d ∈ dirs (world o2)
  end.
Proof.
  intros d o1 o2. split.
  - subst o1. unfold transcribe_video_wav2vec. fold d.
    rewrite bind_unfold. simpl.
    rewrite bind_unfold, wav2vec2_islarge_run. simpl.
    rewrite bind_unfold, prep_transc_pydub_run.
    destruct (segment E src_dir clip_name chunk_dur) as [chunks|e]; simpl;
      [|set_solver].
    rewrite bind_unfold, wav2vec_loop_world.
    destruct (res (wav2vec_loop _ _ _ _ _ _ _ _ _)) as [full|e]; simpl;
      [|set_solver].
    apply filtered_scratch_absent.
  - subst o2. unfold transcribe_video_whisper. fold d.
    rewrite bind_unfold. simpl.
    rewrite bind_unfold, prep_transc_pydub_run.
    destruct (segment E src_dir clip_name chunk_dur) as [chunks|e]; simpl;
      [|set_solver].
    rewrite bind_unfold, whisper_loop_world.
    destruct (res (whisper_loop _ _ _ _ _ _ _ _)) as [full|e]; simpl;
      [|set_solver].
    apply filtered_scratch_absent.
Qed.

End Scratch.

(** C1, counterexample: the second chunk of [noisy.mp3] makes the model
    call raise; the exception leaves [transcribe_video_wav2vec] and the
    scratch directory [/in/audio_chunks] is still on the filesystem. *)
Lemma scratch_left_behind_when_decode_raises :
  let o := transcribe_video_wav2vec (example_env None None) base_model
             base_processor "/in" "noisy.mp3" 30 "audio_chunks"
             (world_with ["noisy.mp3"] 0) in
  res o = Raise (Failure "model" "CUDA out of memory") ∧
  ¬ scratch_absent (world o) "/in/audio_chunks".
Proof.
  split.
  - vm_compute. reflexivity.
  - intros H. destruct (H "/in/audio_chunks" eq_refl) as [Hd _].
    apply Hd. apply (bool_decide_unpack _). vm_compute. exact I.
Qed.

(** ** One failing file and the batch (C2) *)

Section Batch.

Variable E : Env.

Lemma transcribe_files_app iw model processor directory dur mc pre post w :
  let run := transcribe_files E iw model processor directory dur mc in
  res (run pre w) = Ok tt →
  run (pre ++ post) w =
  Outcome (res (run post (world (run pre w))))
          (world (run post (world (run pre w))))
          (trace (run pre w) ++ trace (run post (world (run pre w)))).
Proof.
  intros run. subst run. revert w.
  induction pre as [|f pre IH]; intros w Hpre.
  - simpl. rewrite outcome_eta. reflexivity.
  - simpl in *. rewrite bind_unfold in Hpre. rewrite !bind_unfold.
    destruct (res (transcribe_one E iw model processor directory dur mc f w))
      as [[]|e]; [|discriminate Hpre].
    simpl in *. rewrite IH by exact Hpre. simpl. rewrite app_assoc. reflexivity.
Qed.

Lemma transcribe_files_raise iw model processor directory dur mc pre f post e w :
  let run := transcribe_files E iw model processor directory dur mc in
  let one := transcribe_one E iw model processor directory dur mc f
               (world (run pre w)) in
  res (run pre w) = Ok tt →
  res one = Raise e →
  run (pre ++ f :: post) w =
  Outcome (Raise e) (world one) (trace (run pre w) ++ trace one).
Proof.
  intros run one Hpre Hone. subst run one.
  rewrite transcribe_files_app by exact Hpre.
  cbn [transcribe_files]. rewrite (bind_raise _ _ _ e Hone).
  reflexivity.
Qed.

(** C2, as the code has it: there is no handler around the per-file call,
    so the first file whose inference loop raises ends the whole run.
    [transcribe_dir] raises that same exception, and its world and trace
    are exactly those reached at the failure: none of the remaining files
    is processed and the postprocess stage does not run. *)
Theorem failing_file_aborts_batch
    (input_dir : string) (chunk_length : Z) (model_id : option string)
    (basic_spelling move_comp join_text verbose : bool) (w : World)
    (ctx : RunContext) (pre post : list string) (f : string) (e : exn) :
  let s := transcribe_dir_setup E (abspath input_dir) model_id basic_spelling w in
  let run := transcribe_files E (ctx_is_whisper ctx) (ctx_model ctx)
               (ctx_processor ctx) (abspath input_dir) chunk_length move_comp in
  let one := transcribe_one E (ctx_is_whisper ctx) (ctx_model ctx)
               (ctx_processor ctx) (abspath input_dir) chunk_length move_comp f
               (world (run pre (world s))) in
  res s = Ok ctx →
  ctx_approved_files ctx = pre ++ f :: post →
  res (run pre (world s)) = Ok tt →
  res one = Raise e →
  transcribe_dir E input_dir chunk_length model_id basic_spelling move_comp
    join_text verbose w =
  Outcome (Raise e) (world one) (trace s ++ trace (run pre (world s)) ++ trace one).
Proof.
  intros s run one Hs Hfiles Hpre Hone. subst s run one.
  unfold transcribe_dir. cbv zeta.
  rewrite (bind_ok _ _ _ ctx Hs). rewrite Hfiles.
  rewrite (bind_raise _ _ _ e).
  - rewrite (transcribe_files_raise _ _ _ _ _ _ pre f post e _ Hpre Hone).
    reflexivity.
  - rewrite (transcribe_files_raise _ _ _ _ _ _ pre f post e _ Hpre Hone).
    reflexivity.
Qed.

End Batch.

(** C2, counterexample: [/in] holds [broken.mp3], which the segmenter
    cannot read, and [interview.mp4], which transcribes fine on its own.
    The run raises at [broken.mp3]; [interview.mp4] is never handed to the
    segmenter. *)
Lemma batch_does_not_continue_after_failure :
  let run media := transcribe_dir (example_env None None) "/in" 30
                     (Some "facebook/wav2vec2-base-960h") false false false false
                     (world_with media 0) in
  res (run ["interview.mp4"]) =
    Ok ("/in/v2clntxt_transcriptions/sentences", "/in/v2clntxt_transc_metadata") ∧
  res (run ["broken.mp3"; "interview.mp4"]) =
    Raise (Failure "prep_transc_pydub" "cannot decode broken.mp3") ∧
  segmented_clips (trace (run ["broken.mp3"; "interview.mp4"])) = ["broken.mp3"].
Proof. vm_compute. repeat split; reflexivity. Qed.

Lemma failing_file_aborts_batch_witness :
  let E0 := example_env None None in
  let w := world_with ["broken.mp3"; "interview.mp4"] 0 in
  let s := transcribe_dir_setup E0 "/in" (Some "facebook/wav2vec2-base-960h") false w in
  let one := transcribe_one E0 false base_model base_processor "/in" 30 false
               "broken.mp3" (world s) in
  transcribe_dir E0 "/in" 30 (Some "facebook/wav2vec2-base-960h")
    false false false false w =
  Outcome (Raise (Failure "prep_transc_pydub" "cannot decode broken.mp3"))
    (world one) (trace s ++ [] ++ trace one).
Proof.
  intros E0 w s one.
  exact (failing_file_aborts_batch E0 "/in" 30
           (Some "facebook/wav2vec2-base-960h") false false false false w
           {| ctx_is_whisper := false; ctx_processor := base_processor;
              ctx_model := base_model; ctx_base_spelling := false;
              ctx_checker := Neuspell;
              ctx_approved_files := ["broken.mp3"; "interview.mp4"];
              ctx_t_out := "/in/v2clntxt_transcriptions";
              ctx_m_out := "/in/v2clntxt_transc_metadata" |}
           [] ["interview.mp4"] "broken.mp3"
           (Failure "prep_transc_pydub" "cannot decode broken.mp3")
           ltac:(vm_compute; reflexivity) eq_refl eq_refl
           ltac:(vm_compute; reflexivity)).
Defined.

(** ** A directory without media files (C3) *)

Section EmptyDirectory.

Variable E : Env.

(** With no transcript to go through, the loop of [postprocess_transc]
    never binds [PL_out]; the empty keyword table is written and the
    [return PL_out["SBD_dir"]] raises. *)
Lemma postprocess_transc_no_transcripts tscript_dir mdata_dir linebyline
    method c w :
  res (find_ext_local tscript_dir ".txt" w) = Ok [] →
  postprocess_transc E tscript_dir mdata_dir false linebyline method (Some c) w =
  Outcome (Raise (UnboundLocalError "PL_out"))
    {| dirs := dirs w;
       files := <[ join tscript_dir ("YAKE - all keywords for run at " +:+
                     stamp E (clock w) +:+ ".csv") := KwCsv [] ]> (files w);
       clock := clock w |}
    [EvWriteFile (join tscript_dir ("YAKE - all keywords for run at " +:+
                    stamp E (clock w) +:+ ".csv")) (KwCsv [])].
Proof.
  intros Hfind. unfold postprocess_transc.
  rewrite bind_unfold. cbn [mret M_ret res world trace].
  rewrite bind_unfold. cbn [mret M_ret res world trace].
  rewrite (bind_ok _ _ _ [] Hfind).
  reflexivity.
Qed.

(** C3, on the code: when the input directory has no media file and the
    transcript folder no text file, [transcribe_dir] does not complete: it
    raises [UnboundLocalError] for [PL_out] at the end of
    [postprocess_transc]. *)
Theorem zero_media_files_raise_unbound_local
    (input_dir : string) (chunk_length : Z) (model_id : option string)
    (basic_spelling move_comp join_text verbose : bool) (w : World)
    (ctx : RunContext) :
  let s := transcribe_dir_setup E (abspath input_dir) model_id basic_spelling w in
  res s = Ok ctx →
  ctx_approved_files ctx = [] →
  res (find_ext_local (ctx_t_out ctx) ".txt" (world s)) = Ok [] →
  res (transcribe_dir E input_dir chunk_length model_id basic_spelling move_comp
         join_text verbose w) = Raise (UnboundLocalError "PL_out").
Proof.
  intros s Hs Hfiles Hfind. subst s.
  unfold transcribe_dir. cbv zeta.
  rewrite (bind_ok _ _ _ ctx Hs). rewrite Hfiles.
  cbn [transcribe_files res].
  rewrite bind_unfold. cbn [mret M_ret res world trace].
  rewrite bind_unfold.
  rewrite (postprocess_transc_no_transcripts _ _ _ _ _ _ Hfind).
  reflexivity.
Qed.

End EmptyDirectory.

Lemma zero_media_files_raise_unbound_local_witness :
  let o := transcribe_dir (example_env None None) "/in" 30
             (Some "facebook/wav2vec2-base-960h") false false false false
             (world_with [] 0) in
  res o = Raise (UnboundLocalError "PL_out") ∧
  trace o =
    [EvInitNeuspell;
     EvWriteFile
       "/in/v2clntxt_transcriptions/YAKE - all keywords for run at run-0.csv"
       (KwCsv [])].
Proof.
  split.
  - exact (zero_media_files_raise_unbound_local (example_env None None) "/in" 30
             (Some "facebook/wav2vec2-base-960h") false false false false
             (world_with [] 0)
             {| ctx_is_whisper := false; ctx_processor := base_processor;
                ctx_model := base_model; ctx_base_spelling := false;
                ctx_checker := Neuspell; ctx_approved_files := [];
                ctx_t_out := "/in/v2clntxt_transcriptions";
                ctx_m_out := "/in/v2clntxt_transc_metadata" |}
             ltac:(vm_compute; reflexivity) eq_refl
             ltac:(vm_compute; reflexivity)).
  - vm_compute. reflexivity.
Defined.

(** ** Which events a computation can emit *)

Section Emits.

Variable E : Env.
Variable P : Event → Prop.

Lemma emits_ret {A} (a : A) : emits P (mret a).
Proof. intros w. constructor. Qed.

Lemma emits_raise {A} (e : exn) : emits P (raise e : M A).
Proof. intros w. constructor. Qed.

Lemma emits_of_result {A} (r : result A) : emits P (of_result r).
Proof. intros w. constructor. Qed.

Lemma emits_emit (ev : Event) : P ev → emits P (emit ev).
Proof. intros H w. repeat constructor. exact H. Qed.

Lemma emits_bind {A B} (m : M A) (f : A → M B) :
  emits P m → (∀ a, emits P (f a)) → emits P (m ≫= f).
Proof.
  intros Hm Hf w. rewrite bind_unfold.
  destruct (res (m w)) as [a|e]; simpl.
  - apply Forall_app. split; [apply Hm | apply Hf].
  - apply Hm.
Qed.

Lemma emits_ret_bind {A B} (a : A) (f : A → M B) :
  emits P (f a) → emits P (mret a ≫= f).
Proof. intros H w. exact (H w). Qed.

Lemma emits_try_except {A} (m : M A) (h : exn → M A) :
  emits P m → (∀ e, emits P (h e)) → emits P (try_except m h).
Proof.
  intros Hm Hh w. unfold try_except.
  destruct (res (m w)) as [a|e] eqn:Hr; simpl.
  - apply Hm.
  - apply Forall_app. split; [apply Hm | apply Hh].
Qed.

Lemma emits_if {A} (b : bool) (m1 m2 : M A) :
  emits P m1 → emits P m2 → emits P (if b then m1 else m2).
Proof. destruct b; auto. Qed.

Lemma emits_create_folder d : emits P (create_folder d).
Proof. intros w. constructor. Qed.

Lemma emits_get_timestamp : emits P (get_timestamp E).
Proof. intros w. constructor. Qed.

Lemma emits_find_ext_local d ext : emits P (find_ext_local d ext).
Proof. intros w. constructor. Qed.

Lemma emits_librosa_load p : emits P (librosa_load p).
Proof. intros w. rewrite librosa_load_trace. constructor. Qed.

Lemma emits_write_file p c : P (EvWriteFile p c) → emits P (write_file p c).
Proof. intros H w. repeat constructor. exact H. Qed.

Lemma emits_rmtree d : P (EvRmtree d) → emits P (rmtree d).
Proof. intros H w. repeat constructor. exact H. Qed.

Lemma emits_move2completed d f :
  P (EvMove2Completed d f) → emits P (move2completed E d f).
Proof. intros H w. repeat constructor. exact H. Qed.

Lemma emits_setup_out_dirs d : emits P (setup_out_dirs E d).
Proof. intros w. constructor. Qed.

Lemma emits_find_approved_files d exts : emits P (find_approved_files d exts).
Proof.
  induction exts as [|ext rest IH]; simpl.
  - apply emits_ret.
  - apply emits_bind; [apply emits_find_ext_local|intros found].
    apply emits_bind; [exact IH|intros more]. apply emits_ret.
Qed.

End Emits.

Create HintDb emits.

#[local] Hint Resolve emits_ret emits_raise emits_of_result emits_create_folder
  emits_get_timestamp emits_find_ext_local emits_librosa_load
  emits_setup_out_dirs emits_find_approved_files : emits.

(** One step of a proof that a computation emits only events of [P]. *)
Ltac emits_step :=
  first
    [ apply emits_bind; [|intros ?]
    | apply emits_if
    | apply emits_emit
    | apply emits_write_file
    | apply emits_rmtree
    | apply emits_move2completed
    | solve [auto with emits] ].

Section HousekeepingEvents.

Variable E : Env.
Variable P : Event → Prop.
Hypothesis P_housekeeping : ∀ ev, is_housekeeping_event ev = true → P ev.

Lemma emits_checkpoint i incr : emits P (checkpoint i incr).
Proof.
  unfold checkpoint. repeat emits_step; apply P_housekeeping; reflexivity.
Qed.

Lemma emits_wav2vec_loop m ua chunks :
  (∀ x, P (EvModelCall m x ua)) →
  ∀ d incr i acc, emits P (wav2vec_loop E m ua d incr i chunks acc).
Proof.
  intros Hcall.
  induction chunks as [|c rest IH]; intros; simpl.
  - apply emits_ret.
  - apply emits_bind; [apply emits_checkpoint|intros _].
    apply emits_bind; [apply emits_librosa_load|intros audio].
    apply emits_bind; [apply emits_emit, Hcall|intros _].
    repeat emits_step; apply P_housekeeping; reflexivity.
Qed.

Lemma emits_whisper_loop m chunks :
  (∀ x, P (EvGenerate m x)) →
  ∀ d incr i acc, emits P (whisper_loop E m d incr i chunks acc).
Proof.
  intros Hcall.
  induction chunks as [|c rest IH]; intros; simpl.
  - apply emits_ret.
  - apply emits_bind; [apply emits_checkpoint|intros _].
    apply emits_bind; [apply emits_librosa_load|intros audio].
    apply emits_bind; [apply emits_emit, Hcall|intros _].
    apply emits_bind; [apply emits_of_result|intros decoded].
    apply emits_bind; [destruct decoded; auto with emits|intros t].
    repeat emits_step; apply P_housekeeping; reflexivity.
Qed.

Lemma emits_prep_transc_pydub clip src d dur :
  emits P (prep_transc_pydub E clip src d dur).
Proof.
  intros w. rewrite prep_transc_pydub_run.
  destruct (segment E src clip dur) as [chunks|e]; simpl.
  - constructor; [apply P_housekeeping; reflexivity|].
    apply Forall_map, Forall_forall. intros c _. apply P_housekeeping. reflexivity.
  - repeat constructor. apply P_housekeeping. reflexivity.
Qed.

Lemma emits_finish_transcription src clip dur d chunks full :
  emits P (finish_transcription E src clip dur d chunks full).
Proof.
  unfold finish_transcription, save_transc_results.
  apply emits_bind; [apply emits_get_timestamp|intros ts].
  apply emits_bind.
  - apply emits_bind; [apply emits_setup_out_dirs|intros [t m]].
    repeat emits_step; apply P_housekeeping; reflexivity.
  - intros _. repeat emits_step; apply P_housekeeping; reflexivity.
Qed.

(** What follows the computation of the flag in [transcribe_video_wav2vec]. *)
Lemma emits_after_flag m ua src clip dur d :
  (∀ x, P (EvModelCall m x ua)) →
  emits P
    ((chunk_directory ← prep_transc_pydub E clip src d dur;
      emit EvValidateCuda;;
      emit EvGcCollect;;
      full_transc ← wav2vec_loop E m ua d
                      (GPU_update_incr (length chunk_directory)) 0
                      chunk_directory [];
      finish_transcription E src clip dur d chunk_directory full_transc)
       : M TranscRes).
Proof.
  intros Hcall.
  apply emits_bind; [apply emits_prep_transc_pydub|intros chunks].
  apply emits_bind; [apply emits_emit, P_housekeeping; reflexivity|intros _].
  apply emits_bind; [apply emits_emit, P_housekeeping; reflexivity|intros _].
  apply emits_bind; [apply emits_wav2vec_loop, Hcall|intros full].
  apply emits_finish_transcription.
Qed.

End HousekeepingEvents.

Section InferenceEvents.

Variable E : Env.
Variable P : Event → Prop.
Hypothesis P_inference : ∀ ev, is_inference_event ev = true → P ev.

Lemma P_housekeeping_of_inference ev : is_housekeeping_event ev = true → P ev.
Proof. intros H. apply P_inference. destruct ev; try discriminate H; reflexivity. Qed.

Lemma emits_wav2vec2_islarge m : emits P (wav2vec2_islarge m).
Proof.
  intros w. rewrite wav2vec2_islarge_run. simpl.
  destruct (model_class m); repeat constructor.
  apply P_inference. reflexivity.
Qed.

Lemma emits_transcribe_video_wav2vec m p src clip dur tmp :
  emits P (transcribe_video_wav2vec E m p src clip dur tmp).
Proof.
  unfold transcribe_video_wav2vec.
  apply emits_bind; [apply emits_create_folder|intros _].
  apply emits_bind; [apply emits_wav2vec2_islarge|intros ua].
  apply emits_after_flag; [apply P_housekeeping_of_inference|].
  intros x. apply P_inference. reflexivity.
Qed.

Lemma emits_transcribe_video_whisper m p src clip dur tmp :
  emits P (transcribe_video_whisper E m p src clip dur tmp).
Proof.
  unfold transcribe_video_whisper.
  apply emits_bind; [apply emits_create_folder|intros _].
  apply emits_bind;
    [apply emits_prep_transc_pydub, P_housekeeping_of_inference|intros chunks].
  apply emits_bind; [apply emits_emit, P_inference; reflexivity|intros _].
  apply emits_bind; [apply emits_emit, P_inference; reflexivity|intros _].
  apply emits_bind; [|intros full].
  - apply emits_whisper_loop; [apply P_housekeeping_of_inference|].
    intros x. apply P_inference. reflexivity.
  - apply emits_finish_transcription, P_housekeeping_of_inference.
Qed.

Lemma emits_transcribe_one iw m p d dur mc f :
  emits P (transcribe_one E iw m p d dur mc f).
Proof.
  unfold transcribe_one. apply emits_bind.
  - destruct iw; [apply emits_transcribe_video_whisper
                 |apply emits_transcribe_video_wav2vec].
  - intros _. destruct mc; [|apply emits_ret].
    apply emits_move2completed, P_inference. reflexivity.
Qed.

Lemma emits_transcribe_files iw m p d dur mc files :
  emits P (transcribe_files E iw m p d dur mc files).
Proof.
  induction files as [|f rest IH]; simpl.
  - apply emits_ret.
  - apply emits_bind; [apply emits_transcribe_one|intros _]. exact IH.
Qed.

End InferenceEvents.

(** ** The events of the postprocess stage *)

Section PostprocessEvents.

Variable E : Env.
Variable P : Event → Prop.
Variable method : string.
Variable c : Checker.
Hypothesis P_spellcorrect : ∀ d f l, P (EvSpellcorrect d f method c l).
Hypothesis P_quick_keys : ∀ d f n k, P (EvQuickKeys d f n k).
Hypothesis P_write_file : ∀ p x, P (EvWriteFile p x).

Lemma emits_postprocess_loop tscript linebyline files :
  ∀ kw pl, emits P (postprocess_loop E tscript method c linebyline files kw pl).
Proof.
  induction files as [|f rest IH]; intros; simpl.
  - apply emits_ret.
  - unfold spellcorrect_pipeline, quick_keys.
    repeat emits_step; auto.
Qed.

Lemma emits_postprocess_transc tscript mdata linebyline :
  emits P (postprocess_transc E tscript mdata false linebyline method (Some c)).
Proof.
  unfold postprocess_transc.
  apply emits_ret_bind. apply emits_ret_bind.
  apply emits_bind; [apply emits_find_ext_local|intros files].
  apply emits_bind; [apply emits_postprocess_loop|intros [kw pl]].
  apply emits_bind; [apply emits_get_timestamp|intros ts].
  apply emits_bind; [apply emits_write_file, P_write_file|intros _].
  destruct pl; [apply emits_ret|apply emits_raise].
Qed.

End PostprocessEvents.

(** ** The spell-correction chain (C4) *)

Section SpellChain.

Variable E : Env.

Lemma setup_out_dirs_run directory w :
  setup_out_dirs E directory w =
  Outcome (Ok (join directory (t_folder_name E), join directory (m_folder_name E)))
    {| dirs := {[ join directory (m_folder_name E) ]} ∪
               ({[ join directory (t_folder_name E) ]} ∪ dirs w);
       files := files w; clock := clock w |} [].
Proof. reflexivity. Qed.

Lemma spellcorrect_calls_app t1 t2 :
  spellcorrect_calls (t1 ++ t2) = spellcorrect_calls t1 ++ spellcorrect_calls t2.
Proof. apply omap_app. Qed.

Lemma count_init_neuspell_app t1 t2 :
  count_init_neuspell (t1 ++ t2) = count_init_neuspell t1 + count_init_neuspell t2.
Proof. unfold count_init_neuspell. rewrite List.filter_app, length_app. reflexivity. Qed.

Lemma keeps_checker_trace method c tr :
  Forall (keeps_checker method c) tr →
  Forall (fun call => call = (method, c)) (spellcorrect_calls tr) ∧
  count_init_neuspell tr = 0.
Proof.
  induction 1 as [|ev tr Hev _ [IH1 IH2]]; [split; [constructor|reflexivity]|].
  destruct ev; simpl in Hev; try (split; [exact IH1|exact IH2]).
  - destruct Hev.
  - destruct Hev as [-> ->]. split; [|exact IH2].
    unfold spellcorrect_calls. simpl. constructor; [reflexivity|exact IH1].
Qed.

Lemma inference_keeps_checker method c ev :
  is_inference_event ev = true → keeps_checker method c ev.
Proof. destruct ev; simpl; intros H; try exact I; discriminate H. Qed.

(** The acquisition when the advanced corrector is preferred and fails. *)
Lemma acquire_checker_neuspell_fails e1 w :
  neuspell_fault E = Some e1 →
  acquire_checker E false w =
  Outcome (match symspell_fault E with
           | None => Ok (true, Symspell)
           | Some e2 => Raise e2
           end) w
    ([EvInitNeuspell] ++ fallback_warnings e1 ++ [EvInitSymspell]).
Proof.
  intros Hneu. unfold acquire_checker, try_except, init_neuspell, init_symspell.
  rewrite !bind_unfold. simpl. rewrite Hneu. simpl.
  destruct (symspell_fault E); reflexivity.
Qed.

(** The acquisition raises only when the basic corrector fails. *)
Lemma acquire_checker_raises base_spelling e w :
  res (acquire_checker E base_spelling w) = Raise e → symspell_fault E = Some e.
Proof.
  unfold acquire_checker, try_except, init_neuspell, init_symspell.
  destruct base_spelling; rewrite !bind_unfold; simpl.
  - destruct (symspell_fault E); simpl; [congruence|discriminate].
  - destruct (neuspell_fault E); simpl; [|discriminate].
    destruct (symspell_fault E); simpl; [congruence|discriminate].
Qed.

Lemma load_wav2vec2_modules_quiet hf_id w :
  world (load_wav2vec2_modules E hf_id w) = w ∧
  trace (load_wav2vec2_modules E hf_id w) = [].
Proof.
  unfold load_wav2vec2_modules, from_pretrained. rewrite bind_unfold. simpl.
  destruct (processor_from_pretrained E hf_id); simpl; [|done].
  destruct (contains "wavlm" (lower hf_id)); [|destruct (contains "hubert" (lower hf_id))];
    rewrite !bind_unfold; simpl;
    destruct (weights_from_pretrained E _ hf_id); simpl; done.
Qed.

Lemma find_approved_files_run d exts w :
  ∃ l, find_approved_files d exts w = Outcome (Ok l) w [].
Proof.
  induction exts as [|ext rest [l IH]]; simpl.
  - exists []. reflexivity.
  - eexists. rewrite bind_unfold. cbn [find_ext_local res world trace].
    rewrite bind_unfold, IH. cbn [res world trace mret M_ret app]. reflexivity.
Qed.

(** What the setup of a run leaves behind when the advanced corrector was
    preferred and failed to initialise. *)
Lemma transcribe_dir_setup_degraded directory model_id e1 w :
  neuspell_fault E = Some e1 →
  let s := transcribe_dir_setup E directory model_id false w in
  (trace s = [] ∨
   trace s = [EvInitNeuspell] ++ fallback_warnings e1 ++ [EvInitSymspell]) ∧
  ∀ ctx, res s = Ok ctx → ctx_base_spelling ctx = true ∧ ctx_checker ctx = Symspell.
Proof.
  intros Hneu s. subst s. unfold transcribe_dir_setup.
  destruct model_id as [id|]; [|split; [left; reflexivity|discriminate]].
  rewrite bind_unfold. cbn [mret M_ret res world trace].
  destruct (contains "whisper" (lower id));
    [split; [left; reflexivity|discriminate]|].
  rewrite bind_unfold.
  destruct (load_wav2vec2_modules_quiet id w) as [Hw Ht]. rewrite Hw, Ht.
  destruct (res (load_wav2vec2_modules E id w)) as [[processor model]|e];
    [|split; [left; reflexivity|discriminate]].
  rewrite bind_unfold, (acquire_checker_neuspell_fails e1 w Hneu).
  cbn [res world trace].
  destruct (symspell_fault E) as [e2|];
    [split; [right; reflexivity|discriminate]|].
  rewrite bind_unfold.
  destruct (find_approved_files_run directory (av_fmts E) w) as [l ->].
  cbn [res world trace].
  rewrite bind_unfold, setup_out_dirs_run. cbn [res world trace mret M_ret].
  split; [right; rewrite !app_nil_r; reflexivity|].
  intros ctx [= <-]. split; reflexivity.
Qed.

(** C4: with the advanced corrector preferred, a failure of its
    initialisation is caught, logged with two warnings and answered with
    the basic handle; the acquisition raises only when the basic
    corrector fails too; and in the whole run that follows the advanced
    corrector is initialised at most once and every
    [spellcorrect_pipeline] call gets the method ["symspell"] and the basic
    handle. *)
Theorem advanced_corrector_failure_degrades_to_basic (e1 : exn) :
  neuspell_fault E = Some e1 →
  (∀ w, acquire_checker E false w =
        Outcome (match symspell_fault E with
                 | None => Ok (true, Symspell)
                 | Some e2 => Raise e2
                 end) w
          ([EvInitNeuspell] ++ fallback_warnings e1 ++ [EvInitSymspell])) ∧
  (∀ base_spelling w e,
     res (acquire_checker E base_spelling w) = Raise e →
     symspell_fault E = Some e) ∧
  (∀ input_dir chunk_length model_id move_comp join_text verbose w,
     let o := transcribe_dir E input_dir chunk_length model_id false move_comp
                join_text verbose w in
     Forall (fun call => call = ("symspell", Symspell))
       (spellcorrect_calls (trace o)) ∧
     count_init_neuspell (trace o) ≤ 1).
Proof.
  intros Hneu. split; [|split].
  - intros w. apply acquire_checker_neuspell_fails, Hneu.
  - intros bs w e. apply acquire_checker_raises.
  - intros input_dir chunk_length model_id move_comp join_text verbose w o.
    subst o. unfold transcribe_dir. cbv zeta.
    destruct (transcribe_dir_setup_degraded (abspath input_dir) model_id e1 w Hneu)
      as [Htr Hctx].
    rewrite bind_unfold.
    destruct (res (transcribe_dir_setup E (abspath input_dir) model_id false w))
      as [ctx|e]; cbn [res world trace].
    + destruct (Hctx ctx eq_refl) as [Hb Hc]. rewrite Hb, Hc.
      rewrite spellcorrect_calls_app, count_init_neuspell_app.
      match goal with
      | |- context [trace (?m ?w')] =>
          lazymatch m with
          | (_ ≫= _) =>
              assert (Forall (keeps_checker "symspell" Symspell) (trace (m w')))
                as Hrest
          end
      end.
      { apply emits_bind.
        - apply emits_transcribe_files. apply inference_keeps_checker.
        - intros _. apply emits_bind; [|intros dir; apply emits_ret].
          apply emits_postprocess_transc; simpl; auto. }
      apply keeps_checker_trace in Hrest. destruct Hrest as [Hcalls Hcount].
      rewrite Hcount. destruct Htr as [-> | ->]; simpl; split; auto.
    + destruct Htr as [-> | ->]; simpl; split; auto.
Qed.

End SpellChain.

Lemma advanced_corrector_failure_degrades_to_basic_witness :
  let E0 := example_env (Some (Failure "init_neuspell" "no model weights")) None in
  let o := transcribe_dir E0 "/in" 30 (Some "facebook/wav2vec2-base-960h")
             false false false false (world_with ["talk.mp3"; "interview.mp4"] 0) in
  acquire_checker E0 false (world_with [] 0) =
    Outcome (Ok (true, Symspell)) (world_with [] 0)
      [EvInitNeuspell;
       LogWarning "Failed loading NeuSpell spellchecker, reverting to basic spellchecker";
       LogWarning "no model weights";
       EvInitSymspell] ∧
  spellcorrect_calls (trace o) = [("symspell", Symspell); ("symspell", Symspell)].
Proof.
  intros E0 o.
  pose proof (advanced_corrector_failure_degrades_to_basic E0
                (Failure "init_neuspell" "no model weights") eq_refl)
    as (Hacq & _ & _).
  split.
  - exact (Hacq (world_with [] 0)).
  - vm_compute. reflexivity.
Defined.

(** ** The attention-mask flag (C5) *)

Section AttentionMask.

Variable E : Env.

Lemma mask_follows_trace flag tr :
  Forall (mask_follows flag) tr →
  Forall (fun b => b = flag) (attention_flags tr) ∧ count_num_parameters tr = 0.
Proof.
  induction 1 as [|ev tr Hev _ [IH1 IH2]]; [split; [constructor|reflexivity]|].
  destruct ev; simpl in Hev; try (split; [exact IH1|exact IH2]).
  - destruct Hev.
  - subst. split; [|exact IH2].
    unfold attention_flags. simpl. constructor; [reflexivity|exact IH1].
Qed.

Lemma housekeeping_mask_follows flag ev :
  is_housekeeping_event ev = true → mask_follows flag ev.
Proof. destruct ev; simpl; intros H; try exact I; discriminate H. Qed.

Lemma attention_flags_app t1 t2 :
  attention_flags (t1 ++ t2) = attention_flags t1 ++ attention_flags t2.
Proof. apply omap_app. Qed.

Lemma count_num_parameters_app t1 t2 :
  count_num_parameters (t1 ++ t2) =
  count_num_parameters t1 + count_num_parameters t2.
Proof.
  unfold count_num_parameters. rewrite List.filter_app, length_app. reflexivity.
Qed.

Lemma spec_use_masking_true m :
  spec_use_masking m = true ↔
  model_class m = Wav2Vec2ForCTC ∧
  (Z.abs (num_parameters m - 315471520) < Z.abs (num_parameters m - 94396320))%Z.
Proof.
  unfold spec_use_masking. destruct (model_class m); split;
    try (intros H; discriminate H); try (intros [H _]; discriminate H).
  - intros H. apply bool_decide_eq_true in H. split; [reflexivity|exact H].
  - intros [_ H]. apply bool_decide_eq_true. exact H.
Qed.

(** C5, as the code has it: [wav2vec2_islarge] answers with the rule of
    the specification (a plain wav2vec2 model strictly closer to the large
    reference than to the base reference; false for Hubert and every other
    class).  [transcribe_video_wav2vec] evaluates it once per call, that is
    once per file, before the chunks are cut and read; every model call of
    that file's loop passes the attention mask exactly when the flag says
    so, so none does when the flag is false. *)
Theorem attention_mask_flag_once_per_file
    (ts_model : Model) (processor : Processor) (src_dir clip_name : string)
    (chunk_dur : Z) (temp_dir : string) (w : World) :
  let flag := spec_use_masking ts_model in
  let asked := match model_class ts_model with
               | Wav2Vec2ForCTC => [EvNumParameters ts_model]
               | _ => []
               end in
  let o := transcribe_video_wav2vec E ts_model processor src_dir clip_name
             chunk_dur temp_dir w in
  (flag = true ↔
   model_class ts_model = Wav2Vec2ForCTC ∧
   (Z.abs (num_parameters ts_model - 315471520) <
    Z.abs (num_parameters ts_model - 94396320))%Z) ∧
  wav2vec2_islarge ts_model w = Outcome (Ok flag) w asked ∧
  (∃ rest, trace o = asked ++ rest ∧ Forall (mask_follows flag) rest) ∧
  count_num_parameters (trace o) = length asked ∧
  Forall (fun b => b = flag) (attention_flags (trace o)).
Proof.
  intros flag asked o.
  assert (∃ rest, trace o = asked ++ rest ∧ Forall (mask_follows flag) rest)
    as (rest & Htr & Hrest).
  { subst o. unfold transcribe_video_wav2vec.
    rewrite bind_unfold. cbn [create_folder res world trace].
    rewrite bind_unfold, wav2vec2_islarge_run. cbn [res world trace app].
    eexists. split; [reflexivity|].
    apply emits_after_flag.
    - apply housekeeping_mask_follows.
    - intros x. reflexivity. }
  split; [apply spec_use_masking_true|].
  split; [apply wav2vec2_islarge_run|].
  split; [exists rest; split; assumption|].
  apply mask_follows_trace in Hrest. destruct Hrest as [Hflags Hcount].
  rewrite Htr, count_num_parameters_app, attention_flags_app, Hcount.
  split.
  - subst asked. destruct (model_class ts_model); reflexivity.
  - apply Forall_app. split; [|exact Hflags].
    subst asked. destruct (model_class ts_model); constructor.
Qed.

End AttentionMask.

(** C5, counterexample: a run over the two recordings of [/in] with the
    base wav2vec2 model asks for the parameter count twice, once for each
    file, not once for the run. *)
Lemma attention_flag_computed_for_each_file :
  let o := transcribe_dir (example_env None None) "/in" 30
             (Some "facebook/wav2vec2-base-960h") false false false false
             (world_with ["talk.mp3"; "lecture.mp3"] 0) in
  res o = Ok ("/in/v2clntxt_transcriptions/sentences", "/in/v2clntxt_transc_metadata") ∧
  segmented_clips (trace o) = ["lecture.mp3"; "talk.mp3"] ∧
  count_num_parameters (trace o) = 2.
Proof. vm_compute. repeat split; reflexivity. Qed.

(** ** The two inference functions, phase by phase *)

Section Phases.

Variable E : Env.

Lemma transcribe_video_wav2vec_phases m p src clip dur tmp w :
  let d := join src tmp in
  let asked := match model_class m with
               | Wav2Vec2ForCTC => [EvNumParameters m]
               | _ => []
               end in
  let po := prep_transc_pydub E clip src d dur (world (create_folder d w)) in
  transcribe_video_wav2vec E m p src clip dur tmp w =
  match res po with
  | Raise e => Outcome (Raise e) (world po) (asked ++ trace po)
  | Ok cd =>
      let lo := wav2vec_loop E m (spec_use_masking m) d
                  (GPU_update_incr (length cd)) 0 cd [] (world po) in
      match res lo with
      | Raise e =>
          Outcome (Raise e) (world po)
            (asked ++ trace po ++ [EvValidateCuda; EvGcCollect] ++ trace lo)
      | Ok full =>
          let fo := finish_transcription E src clip dur d cd full (world po) in
          Outcome (res fo) (world fo)
            (asked ++ trace po ++ [EvValidateCuda; EvGcCollect] ++ trace lo ++
             trace fo)
      end
  end.
Proof.
  intros d asked po. unfold transcribe_video_wav2vec. fold d.
  rewrite bind_unfold. cbn [create_folder res trace app].
  rewrite bind_unfold, wav2vec2_islarge_run. cbn [res world trace]. fold asked.
  rewrite bind_unfold. fold po.
  destruct (res po) as [cd|e]; cbn [res world trace]; [|reflexivity].
  rewrite bind_unfold. cbn [emit res world trace].
  rewrite bind_unfold. cbn [emit res world trace].
  rewrite bind_unfold, wav2vec_loop_world.
  destruct (res (wav2vec_loop _ _ _ _ _ _ _ _ _)) as [full|e];
    cbn [res world trace]; reflexivity.
Qed.

Lemma transcribe_video_whisper_phases m p src clip dur tmp w :
  let d := join src tmp in
  let po := prep_transc_pydub E clip src d dur (world (create_folder d w)) in
  transcribe_video_whisper E m p src clip dur tmp w =
  match res po with
  | Raise e => Outcome (Raise e) (world po) (trace po)
  | Ok cd =>
      let lo := whisper_loop E m d (GPU_update_incr (length cd)) 0 cd []
                  (world po) in
      match res lo with
      | Raise e =>
          Outcome (Raise e) (world po)
            (trace po ++ [EvValidateCuda; EvGcCollect] ++ trace lo)
      | Ok full =>
          let fo := finish_transcription E src clip dur d cd full (world po) in
          Outcome (res fo) (world fo)
            (trace po ++ [EvValidateCuda; EvGcCollect] ++ trace lo ++ trace fo)
      end
  end.
Proof.
  intros d po. unfold transcribe_video_whisper. fold d.
  rewrite bind_unfold. cbn [create_folder res trace app].
  rewrite bind_unfold. fold po.
  destruct (res po) as [cd|e]; cbn [res world trace]; [|reflexivity].
  rewrite bind_unfold. cbn [emit res world trace].
  rewrite bind_unfold. cbn [emit res world trace].
  rewrite bind_unfold, whisper_loop_world.
  destruct (res (whisper_loop _ _ _ _ _ _ _ _)) as [full|e];
    cbn [res world trace]; reflexivity.
Qed.

(** A loop that returns has produced one fragment per chunk. *)
Lemma wav2vec_loop_length chunks : ∀ m ua d incr i acc w full,
  res (wav2vec_loop E m ua d incr i chunks acc w) = Ok full →
  length full = length acc + length chunks.
Proof.
  induction chunks as [|c rest IH]; intros m ua d incr i acc w full H; simpl in H.
  - injection H as <-. simpl. lia.
  - rewrite bind_unfold, checkpoint_res, checkpoint_world in H. simpl in H.
    rewrite bind_unfold, librosa_load_world in H.
    destruct (res (librosa_load _ w)) as [a|e]; simpl in H; [|discriminate H].
    destruct (ctc_decode E m a ua) as [dec|e]; simpl in H; [|discriminate H].
    rewrite bind_unfold, empty_cache_res, empty_cache_world in H. simpl in H.
    apply IH in H. rewrite H, length_app. simpl. lia.
Qed.

Lemma whisper_loop_length chunks : ∀ m d incr i acc w full,
  res (whisper_loop E m d incr i chunks acc w) = Ok full →
  length full = length acc + length chunks.
Proof.
  induction chunks as [|c rest IH]; intros m d incr i acc w full H; simpl in H.
  - injection H as <-. simpl. lia.
  - rewrite bind_unfold, checkpoint_res, checkpoint_world in H. simpl in H.
    rewrite bind_unfold, librosa_load_world in H.
    destruct (res (librosa_load _ w)) as [a|e]; simpl in H; [|discriminate H].
    destruct (generate_decode E m a) as [[|t dec]|e]; simpl in H;
      try discriminate H.
    rewrite bind_unfold, empty_cache_res, empty_cache_world in H. simpl in H.
    apply IH in H. rewrite H, length_app. simpl. lia.
Qed.

End Phases.

(** ** The metadata row (C6) *)

Section MetadataRowFacts.

Variable E : Env.

(** Inversion of a call that returned: the segmenter answered, and the
    result holds the fragments of the loop and the one row built from
    them. *)
Lemma transcribe_video_returns (whisper : bool) m p src clip dur tmp w r :
  res ((if whisper
        then transcribe_video_whisper E m p src clip dur tmp
        else transcribe_video_wav2vec E m p src clip dur tmp) w) = Ok r →
  ∃ chunks,
    segment E src clip dur = Ok chunks ∧
    length (audio_transcription r) = length chunks ∧
    metadata r = [metadata_row clip (length chunks) dur (stamp E (clock w))
                    (corr E (str_join " " (audio_transcription r)))].
Proof.
  destruct whisper.
  - rewrite transcribe_video_whisper_phases. cbv zeta.
    rewrite prep_transc_pydub_run.
    destruct (segment E src clip dur) as [chunks|e]; cbn [res world trace];
      [|discriminate].
    destruct (res (whisper_loop _ _ _ _ _ _ _ _)) as [full|e] eqn:Hloop;
      cbn [res]; [|discriminate].
    rewrite finish_transcription_res. intros [= <-]. exists chunks.
    apply whisper_loop_length in Hloop. rewrite length_map in Hloop.
    cbn [audio_transcription metadata clock]. rewrite length_map.
    repeat split; [exact Hloop].
  - rewrite transcribe_video_wav2vec_phases. cbv zeta.
    rewrite prep_transc_pydub_run.
    destruct (segment E src clip dur) as [chunks|e]; cbn [res world trace];
      [|discriminate].
    destruct (res (wav2vec_loop _ _ _ _ _ _ _ _ _)) as [full|e] eqn:Hloop;
      cbn [res]; [|discriminate].
    rewrite finish_transcription_res. intros [= <-]. exists chunks.
    apply wav2vec_loop_length in Hloop. rewrite length_map in Hloop.
    cbn [audio_transcription metadata clock]. rewrite length_map.
    repeat split; [exact Hloop].
Qed.

(** [len(s.split(" "))] is one more than the number of spaces. *)
Lemma split_on_length sep s : length (split_on sep s) = S (count_char sep s).
Proof.
  induction s as [|c s IH]; simpl; [reflexivity|].
  destruct (Ascii.eqb c sep); simpl.
  - rewrite IH. reflexivity.
  - destruct (split_on sep s); simpl in *; [discriminate IH|exact IH].
Qed.

(** C6, on the code: a 65-second recording cut every 30 seconds gives 3
    chunks, 3 fragments and one row; the row counts 3 chunks and its word
    count is [len(full_text.split(" "))].  Its duration field, which the
    source annotates as the duration of the video in minutes, is the chunk
    count times the chunk duration over 60: 1.5 minutes, the short last
    chunk counted as a full one, and not the 65 seconds of the recording;
    for both decoding variants. *)
Theorem metadata_row_of_a_65_second_file (whisper : bool)
    (model : Model) (processor : Processor) (src_dir clip_name temp_dir : string)
    (w : World) (chunks : list (string * string)) (r : TranscRes) :
  segment E src_dir clip_name 30 = Ok chunks →
  length chunks = spec_chunk_count 65 30 →
  res ((if whisper
        then transcribe_video_whisper E model processor src_dir clip_name 30 temp_dir
        else transcribe_video_wav2vec E model processor src_dir clip_name 30 temp_dir)
         w) = Ok r →
  spec_chunk_durations 65 65 30 = [30; 30; 5] ∧
  length chunks = 3 ∧
  length (audio_transcription r) = 3 ∧
  ∃ row, metadata r = [row] ∧
         md_clip_name row = clip_name ∧
         md_chunk_count row = 3 ∧
         md_chunk_dur row = 30%Z ∧
         (md_duration_min row == 3 # 2)%Q ∧
         md_full_text row = corr E (str_join " " (audio_transcription r)) ∧
         md_num_chars row = String.length (md_full_text row) ∧
         md_num_words row = length (split_on " " (md_full_text row)) ∧
         md_num_words row = S (count_char " " (md_full_text row)).
Proof.
  intros Hseg Hlen Hres.
  apply transcribe_video_returns in Hres. destruct Hres as (chunks' & Hseg' & Hfull & Hmd).
  rewrite Hseg in Hseg'. injection Hseg' as <-.
  assert (length chunks = 3) as H3 by (rewrite Hlen; reflexivity).
  rewrite H3 in *.
  split; [reflexivity|]. split; [reflexivity|]. split; [exact Hfull|].
  eexists. split; [exact Hmd|].
  cbn [metadata_row md_clip_name md_chunk_count md_chunk_dur md_duration_min
       md_full_text md_num_chars md_num_words].
  repeat split. apply split_on_length.
Qed.

End MetadataRowFacts.

Lemma metadata_row_of_a_65_second_file_witness :
  let E0 := example_env None None in
  let o := transcribe_video_wav2vec E0 base_model base_processor "/in"
             "lecture.mp3" 30 "audio_chunks" (world_with ["lecture.mp3"] 0) in
  ∃ r, res o = Ok r ∧
       length (audio_transcription r) = 3 ∧
       ∃ row, metadata r = [row] ∧ md_chunk_count row = 3 ∧
              (md_duration_min row == 3 # 2)%Q ∧
              md_num_words row = length (split_on " " (md_full_text row)).
Proof.
  intros E0 o.
  assert (∃ r, res o = Ok r) as [r Hr] by (eexists; vm_compute; reflexivity).
  exists r. split; [exact Hr|].
  destruct (metadata_row_of_a_65_second_file E0 false base_model base_processor
              "/in" "lecture.mp3" "audio_chunks" (world_with ["lecture.mp3"] 0)
              _ r ltac:(vm_compute; reflexivity) ltac:(vm_compute; reflexivity) Hr)
    as (_ & _ & Hfull & row & Hmd & _ & Hcount & _ & Hdur & _ & _ & Hwords & _).
  split; [exact Hfull|]. exists row. repeat split; assumption.
Defined.

(** C6, at the failing input: for the 65-second [lecture.mp3] cut every
    30 seconds the duration field of the row is 90/60 = 1.5 minutes; it
    exceeds the 65 seconds of the recording (65/60, about 1.083 minutes) by
    5/12 of a minute. *)
Lemma duration_field_is_not_the_recording_length :
  let o := transcribe_video_wav2vec (example_env None None) base_model
             base_processor "/in" "lecture.mp3" 30 "audio_chunks"
             (world_with ["lecture.mp3"] 0) in
  example_durations !! "lecture.mp3" = Some 65 ∧
  match res o with
  | Ok r =>
      match metadata r with
      | [row] => md_chunk_count row = 3 ∧
                 md_duration_min row = (90 # 60)%Q ∧
                 (md_duration_min row - (65 # 60) == 5 # 12)%Q
      | _ => False
      end
  | Raise _ => False
  end.
Proof. vm_compute. repeat split; reflexivity. Qed.

(** ** The device-monitor cadence (C8) *)

Section Cadence.

Variable E : Env.









End Cadence.

Section CadenceOfACall.

Variable E : Env.






End CadenceOfACall.


(** ** The generative variant (C10) *)

Section Generative.

Variable E : Env.

Lemma emits_no_generate_init_symspell : emits no_generate (init_symspell E).
Proof.
  unfold init_symspell. apply emits_bind; [apply emits_emit; exact I|intros _].
  destruct (symspell_fault E); auto with emits.
Qed.

Lemma emits_no_generate_init_neuspell : emits no_generate (init_neuspell E).
Proof.
  unfold init_neuspell. apply emits_bind; [apply emits_emit; exact I|intros _].
  destruct (neuspell_fault E); auto with emits.
Qed.

Lemma emits_no_generate_acquire base_spelling :
  emits no_generate (acquire_checker E base_spelling).
Proof.
  unfold acquire_checker. destruct base_spelling.
  - apply emits_bind; [apply emits_no_generate_init_symspell|intros c].
    apply emits_ret.
  - apply emits_try_except.
    + apply emits_bind; [apply emits_no_generate_init_neuspell|intros c].
      apply emits_ret.
    + intros e.
      apply emits_bind; [apply emits_emit; exact I|intros _].
      apply emits_bind; [apply emits_emit; exact I|intros _].
      apply emits_bind; [apply emits_no_generate_init_symspell|intros c].
      apply emits_ret.
Qed.

Lemma emits_no_generate_setup directory model_id base_spelling :
  emits no_generate (transcribe_dir_setup E directory model_id base_spelling).
Proof.
  unfold transcribe_dir_setup.
  apply emits_bind; [destruct model_id; auto with emits|intros iw].
  apply emits_bind.
  { destruct iw; [apply emits_raise|].
    unfold load_wav2vec2_modules, from_pretrained.
    repeat emits_step; exact I. }
  intros [processor model].
  apply emits_bind; [apply emits_no_generate_acquire|intros [bs checker]].
  apply emits_bind; [apply emits_find_approved_files|intros files].
  apply emits_bind; [apply emits_setup_out_dirs|intros [t m]].
  apply emits_ret.
Qed.

Lemma transcribe_dir_setup_not_whisper directory model_id base_spelling w ctx :
  res (transcribe_dir_setup E directory model_id base_spelling w) = Ok ctx →
  ctx_is_whisper ctx = false.
Proof.
  unfold transcribe_dir_setup. intros H.
  apply bind_res_ok in H. destruct H as (iw & Hiw & H).
  apply bind_res_ok in H. destruct H as ([processor model] & Hload & H).
  destruct iw; [discriminate Hload|].
  apply bind_res_ok in H. destruct H as ([bs checker] & _ & H).
  apply bind_res_ok in H. destruct H as (files & _ & H).
  apply bind_res_ok in H. destruct H as ([t m] & _ & H).
  injection H as <-. reflexivity.
Qed.

Lemma emits_no_generate_wav2vec_files m p d dur mc files :
  emits no_generate (transcribe_files E false m p d dur mc files).
Proof.
  assert (∀ ev, is_housekeeping_event ev = true → no_generate ev) as Hhouse
    by (intros ev; destruct ev; simpl; intros H; try exact I; discriminate H).
  induction files as [|f rest IH]; simpl; [apply emits_ret|].
  apply emits_bind; [|intros _; exact IH].
  unfold transcribe_one, transcribe_video_wav2vec.
  apply emits_bind.
  - apply emits_bind; [apply emits_create_folder|intros _].
    apply emits_bind.
    + intros w. rewrite wav2vec2_islarge_run. cbn [trace].
      destruct (model_class m); repeat constructor.
    + intros ua. apply emits_after_flag; [exact Hhouse|intros x; exact I].
  - intros _. destruct mc; [|apply emits_ret].
    apply emits_move2completed. exact I.
Qed.

(** C10: a model identifier that contains "whisper" in any casing makes
    [transcribe_dir] raise [NameError] for [laod_whisper_modules] at once:
    the world is untouched and nothing has been called.  Since every other
    identifier selects the CTC variant, no run of [transcribe_dir] ever
    reaches [model.generate]. *)
Theorem whisper_model_id_raises_name_error
    (input_dir : string) (chunk_length : Z) (model_id : string)
    (basic_spelling move_comp join_text verbose : bool) (w : World) :
  contains "whisper" (lower model_id) = true →
  transcribe_dir E input_dir chunk_length (Some model_id) basic_spelling
    move_comp join_text verbose w =
  Outcome (Raise (NameError "laod_whisper_modules")) w [] ∧
  ∀ any_id w', Forall no_generate
    (trace (transcribe_dir E input_dir chunk_length any_id basic_spelling
              move_comp join_text verbose w')).
Proof.
  intros Hw. split.
  - unfold transcribe_dir, transcribe_dir_setup. cbv zeta.
    rewrite !bind_unfold. cbn [mret M_ret res world trace].
    rewrite Hw. reflexivity.
  - intros any_id w'. unfold transcribe_dir. cbv zeta.
    pose proof (emits_no_generate_setup (abspath input_dir) any_id
                  basic_spelling w') as Hsetup.
    rewrite bind_unfold.
    destruct (res (transcribe_dir_setup E (abspath input_dir) any_id
                     basic_spelling w')) as [ctx|e] eqn:Hs; cbn [trace];
      [|exact Hsetup].
    apply Forall_app. split; [exact Hsetup|].
    rewrite (transcribe_dir_setup_not_whisper _ _ _ _ _ Hs).
    revert w'  Hsetup Hs. intros w' _ _.
    match goal with
    | |- Forall _ (trace (?m ?w0)) => generalize w0; change (emits no_generate m)
    end.
    apply emits_bind; [apply emits_no_generate_wav2vec_files|intros _].
    apply emits_bind; [|intros dir; apply emits_ret].
    apply emits_postprocess_transc; intros; exact I.
Qed.

End Generative.

Lemma whisper_model_id_raises_name_error_witness :
  let w := world_with ["talk.mp3"] 0 in
  contains "whisper" (lower "openai/whisper-base.en") = true ∧
  transcribe_dir (example_env None None) "/in" 30 (Some "openai/whisper-base.en")
    false false false false w =
  Outcome (Raise (NameError "laod_whisper_modules")) w [].
Proof.
  intros w. split; [reflexivity|].
  exact (proj1 (whisper_model_id_raises_name_error (example_env None None) "/in"
                  30 "openai/whisper-base.en" false false false false w eq_refl)).
Defined.

(** ** The keyword database (C9) *)

Section KeywordDatabase.

Variable E : Env.

Lemma concat_axis1_names a b :
  map col_name (concat_axis1 a b) = map col_name a ++ map col_name b.
Proof.
  unfold concat_axis1. rewrite <- map_app, map_map. reflexivity.
Qed.

Lemma concat_axis1_length a b :
  length (concat_axis1 a b) = length a + length b.
Proof. unfold concat_axis1. rewrite length_map, length_app. reflexivity. Qed.

Lemma foldl_concat_axis1_names tables : ∀ acc,
  map col_name (foldl concat_axis1 acc tables) =
  map col_name acc ++ flat_map (map col_name) tables.
Proof.
  induction tables as [|df rest IH]; intros acc; simpl.
  - rewrite app_nil_r. reflexivity.
  - rewrite IH, concat_axis1_names, <- app_assoc. reflexivity.
Qed.

Lemma foldl_concat_axis1_length tables : ∀ acc,
  length (foldl concat_axis1 acc tables) =
  length acc + list_sum (map length tables).
Proof.
  induction tables as [|df rest IH]; intros acc; simpl.
  - lia.
  - rewrite IH, concat_axis1_length. lia.
Qed.

Lemma two_column_tables_sum (tables : list DataFrame) :
  Forall (fun df => length df = 2) tables →
  list_sum (map length tables) = 2 * length tables.
Proof.
  induction 1 as [|df rest Hdf _ IH]; simpl; [reflexivity|].
  rewrite Hdf, IH. lia.
Qed.

(** The loop over the transcripts, when both collaborators answer for
    every file. *)
Lemma postprocess_loop_run tscript method c linebyline files tables :
  Forall2 (keyword_table_of E tscript method c linebyline) files tables →
  ∀ kw pl w,
    let o := postprocess_loop E tscript method c linebyline files kw pl w in
    (∃ pl', res o = Ok (foldl concat_axis1 kw tables, pl') ∧
            (is_Some pl ∨ files ≠ [] → is_Some pl')) ∧
    world o = w ∧
    spellcorrected_files (trace o) = files ∧
    quick_keys_params (trace o) = replicate (length files) (25, 3) ∧
    keyword_db_writes (trace o) = [].
Proof.
  induction 1 as [|f df files tables (p & Hsc & Hkw) _ IH]; intros kw pl w.
  - simpl. repeat split. exists pl. split; [reflexivity|].
    intros [H|H]; [exact H|congruence].
  - cbn [postprocess_loop]. unfold spellcorrect_pipeline, quick_keys.
    rewrite Hsc.
    repeat (rewrite bind_unfold; cbn [emit of_result res world trace]).
    rewrite Hkw.
    repeat (rewrite bind_unfold; cbn [emit of_result res world trace]).
    destruct (IH (concat_axis1 kw df) (Some p) w)
      as ((pl' & Hres & Hsome) & Hw & Hfiles & Hparams & Hwrites).
    rewrite Hres, Hw. cbn [res world trace app foldl length replicate].
    split; [|split; [reflexivity|]].
    + exists pl'. split; [reflexivity|]. intros _. apply Hsome. left. eauto.
    + unfold spellcorrected_files, quick_keys_params, keyword_db_writes in *.
      repeat split;
        [rewrite <- Hfiles at 2 | rewrite <- Hparams | rewrite <- Hwrites];
        reflexivity.
Qed.

(** C9: when the postprocess stage goes through [N] transcript files,
    every file gives one keyword table, asked for with 25 keywords and
    n-grams up to 3; the tables are concatenated column-wise in discovery
    order, so the database has the columns of the [N] tables one after
    the other (2 [N] columns when each table has its two columns); and the
    database is written once, as the last event, after every file has been
    processed. *)
Theorem keyword_database_one_column_set_per_file
    (tscript_dir mdata_dir : string) (linebyline : bool) (method : string)
    (c : Checker) (w : World) (txt_files : list string)
    (tables : list DataFrame) :
  res (find_ext_local tscript_dir ".txt" w) = Ok txt_files →
  Forall2 (keyword_table_of E tscript_dir method c linebyline) txt_files tables →
  let o := postprocess_transc E tscript_dir mdata_dir false linebyline method
             (Some c) w in
  let db := foldl concat_axis1 [] tables in
  let path := join tscript_dir ("YAKE - all keywords for run at " +:+
                                stamp E (clock w) +:+ ".csv") in
  length tables = length txt_files ∧
  map col_name db = flat_map (map col_name) tables ∧
  length db = list_sum (map length tables) ∧
  (Forall (fun df => length df = 2) tables → length db = 2 * length txt_files) ∧
  keyword_db_writes (trace o) = [db] ∧
  files (world o) !! path = Some (KwCsv db) ∧
  ∃ pre, trace o = pre ++ [EvWriteFile path (KwCsv db)] ∧
         spellcorrected_files pre = txt_files ∧
         quick_keys_params pre = replicate (length txt_files) (25, 3) ∧
         keyword_db_writes pre = [].
Proof.
  intros Hfind Htables o db path.
  pose proof (Forall2_length _ _ _ Htables) as Hlen.
  split; [symmetry; exact Hlen|].
  split; [apply (foldl_concat_axis1_names tables [])|].
  split; [apply (foldl_concat_axis1_length tables [])|].
  split.
  { intros H2. unfold db. rewrite foldl_concat_axis1_length.
    rewrite two_column_tables_sum by exact H2. simpl. lia. }
  assert (∃ pre, trace o = pre ++ [EvWriteFile path (KwCsv db)] ∧
                 files (world o) !! path = Some (KwCsv db) ∧
                 spellcorrected_files pre = txt_files ∧
                 quick_keys_params pre = replicate (length txt_files) (25, 3) ∧
                 keyword_db_writes pre = [])
    as (pre & Htr & Hfile & Hsc & Hqk & Hkw).
  { subst o. unfold postprocess_transc.
    rewrite bind_unfold. cbn [mret M_ret res world trace app].
    rewrite bind_unfold. cbn [mret M_ret res world trace app].
    rewrite (bind_ok _ _ _ txt_files Hfind).
    cbn [find_ext_local res world trace app].
    destruct (postprocess_loop_run tscript_dir method c linebyline txt_files
                tables Htables [] None w)
      as ((pl' & Hres & _) & Hw & Hfiles & Hparams & Hwrites).
    rewrite (bind_ok _ _ _ _ Hres), Hw. fold db.
    rewrite bind_unfold. cbn [get_timestamp res world trace app].
    rewrite bind_unfold. cbn [write_file res world trace app]. fold path.
    exists (trace (postprocess_loop E tscript_dir method c linebyline txt_files
                     [] None w)).
    split; [|split; [|auto]].
    - destruct pl'; cbn [res world trace mret M_ret raise];
        rewrite ?app_nil_r; reflexivity.
    - destruct pl'; cbn [res world trace mret M_ret raise files];
        apply lookup_insert_eq. }
  split.
  { rewrite Htr. unfold keyword_db_writes in *. rewrite omap_app, Hkw.
    reflexivity. }
  split; [exact Hfile|].
  exists pre. auto.
Qed.

End KeywordDatabase.

Lemma keyword_database_one_column_set_per_file_witness :
  let E0 := example_env None None in
  let o := postprocess_transc E0 "/out" "/meta" false true "symspell"
             (Some Symspell) transcripts_world in
  keyword_db_writes (trace o) =
    [[ {| col_name := "corrected_a_full.txt";
          col_cells := [Some "speech"; Some "audio"] |};
       {| col_name := "score"; col_cells := [Some "0.1"; Some "0.2"] |};
       {| col_name := "corrected_b_full.txt";
          col_cells := [Some "speech"; Some "audio"] |};
       {| col_name := "score"; col_cells := [Some "0.1"; Some "0.2"] |} ]].
Proof.
  intros E0 o.
  destruct (keyword_database_one_column_set_per_file E0 "/out" "/meta" true
              "symspell" Symspell transcripts_world
              ["a_full.txt"; "b_full.txt"]
              [ keywords_of_example "corrected_a_full.txt";
                keywords_of_example "corrected_b_full.txt" ]
              ltac:(vm_compute; reflexivity)
              ltac:(repeat constructor; eexists; split; reflexivity))
    as (_ & _ & _ & _ & Hwrites & _).
  exact Hwrites.
Defined.

(** ** Running the inference loop again (C7) *)

Section Rerun.

Variable E : Env.

(** After the segmenter has written its chunks, what a chunk path holds
    does not depend on what the filesystem held before. *)
Lemma with_chunks_agree d chunks : ∀ (fs1 fs2 : gmap string Content) p,
  p ∈ map (fun c : string * string => join d c.1) chunks ∨ fs1 !! p = fs2 !! p →
  with_chunks d chunks fs1 !! p = with_chunks d chunks fs2 !! p.
Proof.
  induction chunks as [|[n s] rest IH]; intros fs1 fs2 p H; cbn [with_chunks foldl].
  - destruct H as [H|H]; [|exact H]. apply elem_of_nil in H. destruct H.
  - apply IH. cbn [map fst] in H.
    destruct (decide (p = join d n)) as [->|Hne].
    + right. cbn [fst snd]. rewrite !lookup_insert_eq. reflexivity.
    + destruct H as [H|H].
      * apply elem_of_cons in H. destruct H as [H|H]; [contradiction|].
        left. exact H.
      * right. cbn [fst snd]. rewrite !lookup_insert_ne by congruence. exact H.
Qed.

Lemma librosa_load_agree p w1 w2 :
  files w1 !! p = files w2 !! p →
  res (librosa_load p w1) = res (librosa_load p w2).
Proof.
  intros H. unfold librosa_load. rewrite H.
  destruct (files w2 !! p) as [[]|]; reflexivity.
Qed.

(** The loops see the world only through the chunk files. *)
Lemma wav2vec_loop_agree chunks : ∀ m ua d incr i acc w1 w2,
  (∀ c, c ∈ chunks → files w1 !! join d c = files w2 !! join d c) →
  res (wav2vec_loop E m ua d incr i chunks acc w1) =
  res (wav2vec_loop E m ua d incr i chunks acc w2).
Proof.
  induction chunks as [|c rest IH]; intros m ua d incr i acc w1 w2 H;
    cbn [wav2vec_loop]; [reflexivity|].
  rewrite ?bind_unfold, ?checkpoint_res, ?checkpoint_world. cbn [res world].
  rewrite ?bind_unfold, ?librosa_load_world.
  rewrite (librosa_load_agree (join d c) w1 w2) by (apply H; left).
  destruct (res (librosa_load (join d c) w2)) as [a|e]; cbn [res world];
    [|reflexivity].
  rewrite ?bind_unfold. cbn [emit res world].
  rewrite ?bind_unfold. cbn [of_result res world].
  destruct (ctc_decode E m a ua) as [dec|e]; cbn [res world]; [|reflexivity].
  rewrite ?bind_unfold, ?empty_cache_res, ?empty_cache_world. cbn [res world].
  apply IH. intros c' Hc'. apply H. right. exact Hc'.
Qed.

Lemma whisper_loop_agree chunks : ∀ m d incr i acc w1 w2,
  (∀ c, c ∈ chunks → files w1 !! join d c = files w2 !! join d c) →
  res (whisper_loop E m d incr i chunks acc w1) =
  res (whisper_loop E m d incr i chunks acc w2).
Proof.
  induction chunks as [|c rest IH]; intros m d incr i acc w1 w2 H;
    cbn [whisper_loop]; [reflexivity|].
  rewrite ?bind_unfold, ?checkpoint_res, ?checkpoint_world. cbn [res world].
  rewrite ?bind_unfold, ?librosa_load_world.
  rewrite (librosa_load_agree (join d c) w1 w2) by (apply H; left).
  destruct (res (librosa_load (join d c) w2)) as [a|e]; cbn [res world];
    [|reflexivity].
  rewrite ?bind_unfold. cbn [emit res world].
  rewrite ?bind_unfold. cbn [of_result res world].
  destruct (generate_decode E m a) as [[|t dec]|e]; cbn [res world];
    try reflexivity.
  rewrite ?bind_unfold. cbn [mret M_ret res world].
  rewrite ?bind_unfold, ?empty_cache_res, ?empty_cache_world. cbn [res world].
  apply IH. intros c' Hc'. apply H. right. exact Hc'.
Qed.

Lemma chunk_files_agree d chunks (w1 w2 : World) c :
  c ∈ map fst chunks →
  with_chunks d chunks (files w1) !! join d c =
  with_chunks d chunks (files w2) !! join d c.
Proof.
  intros Hc. apply with_chunks_agree. left.
  apply list_elem_of_fmap in Hc. destruct Hc as ([n s] & -> & Hin).
  apply list_elem_of_fmap. exists (n, s). split; [reflexivity|exact Hin].
Qed.

(** C7, as the code has it: two runs of the inference loop on the same
    file, from any two states of the filesystem and at any two times, end
    the same way; when they return, the fragments and the transcript are
    identical and the two metadata rows are equal in every field except
    the timestamp, which is the reading of the clock at each run (equal
    readings give equal rows); for both decoding variants. *)
Theorem rerun_identical_up_to_timestamp (whisper : bool) (model : Model)
    (processor : Processor) (src_dir clip_name : string) (chunk_dur : Z)
    (temp_dir : string) (w1 w2 : World) :
  let run := if whisper
             then transcribe_video_whisper E model processor src_dir clip_name
                    chunk_dur temp_dir
             else transcribe_video_wav2vec E model processor src_dir clip_name
                    chunk_dur temp_dir in
  match res (run w1), res (run w2) with
  | Ok r1, Ok r2 =>
      audio_transcription r1 = audio_transcription r2 ∧
      map md_full_text (metadata r1) = map md_full_text (metadata r2) ∧
      metadata r2 = map (with_timestamp (stamp E (clock w2))) (metadata r1) ∧
      (stamp E (clock w1) = stamp E (clock w2) → r1 = r2)
  | Raise e1, Raise e2 => e1 = e2
  | _, _ => False
  end.
Proof.
  intros run. subst run. destruct whisper.
  - rewrite !transcribe_video_whisper_phases. cbv zeta.
    rewrite !prep_transc_pydub_run.
    destruct (segment E src_dir clip_name chunk_dur) as [chunks|e];
      cbn [res world trace]; [|reflexivity].
    match goal with
    | |- context [res (whisper_loop E ?m ?d ?incr ?i ?cd ?acc ?wa)] =>
        match goal with
        | |- context [res (whisper_loop E m d incr i cd acc ?wb)] =>
            lazymatch wa with
            | wb => fail
            | _ => rewrite (whisper_loop_agree cd m d incr i acc wa wb)
            end
        end
    end.
    2: { intros c Hc. cbn [files]. apply chunk_files_agree, Hc. }
    destruct (res (whisper_loop _ _ _ _ _ _ _ _)) as [full|e]; cbn [res];
      [|reflexivity].
    rewrite !finish_transcription_res. cbn [audio_transcription metadata clock map].
    repeat split. intros Heq. simpl. rewrite Heq. reflexivity.
  - rewrite !transcribe_video_wav2vec_phases. cbv zeta.
    rewrite !prep_transc_pydub_run.
    destruct (segment E src_dir clip_name chunk_dur) as [chunks|e];
      cbn [res world trace]; [|reflexivity].
    match goal with
    | |- context [res (wav2vec_loop E ?m ?ua ?d ?incr ?i ?cd ?acc ?wa)] =>
        match goal with
        | |- context [res (wav2vec_loop E m ua d incr i cd acc ?wb)] =>
            lazymatch wa with
            | wb => fail
            | _ => rewrite (wav2vec_loop_agree cd m ua d incr i acc wa wb)
            end
        end
    end.
    2: { intros c Hc. cbn [files]. apply chunk_files_agree, Hc. }
    destruct (res (wav2vec_loop _ _ _ _ _ _ _ _ _)) as [full|e]; cbn [res];
      [|reflexivity].
    rewrite !finish_transcription_res. cbn [audio_transcription metadata clock map].
    repeat split. intros Heq. simpl. rewrite Heq. reflexivity.
Qed.

End Rerun.

(** C7, counterexample: [lecture.mp3] is transcribed at time 0 and again,
    in the world the first run left, at time 1, with the same deterministic
    decoder.  The fragments and the transcript agree; the two metadata rows
    do not, their timestamps are [run-0] and [run-1]. *)
Lemma second_run_has_another_metadata_row :
  let run := transcribe_video_wav2vec (example_env None None) base_model
               base_processor "/in" "lecture.mp3" 30 "audio_chunks" in
  let o1 := run (world_with ["lecture.mp3"] 0) in
  let o2 := run (later 1 (world o1)) in
  match res o1, res o2 with
  | Ok r1, Ok r2 =>
      audio_transcription r1 = audio_transcription r2 ∧
      map md_full_text (metadata r1) = map md_full_text (metadata r2) ∧
      map md_timestamp (metadata r1) = ["run-0"] ∧
      map md_timestamp (metadata r2) = ["run-1"] ∧
      metadata r1 ≠ metadata r2
  | _, _ => False
  end.
Proof.
  vm_compute. repeat split; try reflexivity.
  intros H. discriminate H.
Qed.

(** * Further properties of the code *)

(** ** Events, kind by kind *)

Section EventKinds.

Variable E : Env.
Variable P : Event → Prop.
Hypothesis P_device : ∀ ev, is_device_event ev = true → P ev.
Hypothesis P_segment : ∀ s c d, P (EvSegment s c d).
Hypothesis P_audio : ∀ p s, P (EvWriteFile p (Audio s)).
Hypothesis P_output : ∀ p c, is_output_content c = true → P (EvWriteFile p c).
Hypothesis P_rmtree : ∀ d, P (EvRmtree d).
Hypothesis P_num_parameters : ∀ m, P (EvNumParameters m).
Hypothesis P_move : ∀ d f, P (EvMove2Completed d f).

Lemma emits_checkpoint_device i incr : emits P (checkpoint i incr).
Proof.
  unfold checkpoint. repeat emits_step; apply P_device; reflexivity.
Qed.

Lemma emits_wav2vec_loop_device m ua chunks :
  (∀ x, P (EvModelCall m x ua)) →
  ∀ d incr i acc, emits P (wav2vec_loop E m ua d incr i chunks acc).
Proof.
  intros Hcall.
  induction chunks as [|c rest IH]; intros; simpl.
  - apply emits_ret.
  - apply emits_bind; [apply emits_checkpoint_device|intros _].
    apply emits_bind; [apply emits_librosa_load|intros audio].
    apply emits_bind; [apply emits_emit, Hcall|intros _].
    apply emits_bind; [apply emits_of_result|intros decoded].
    apply emits_bind; [|intros _; apply IH].
    apply emits_if; [apply emits_emit, P_device; reflexivity|apply emits_ret].
Qed.

Lemma emits_whisper_loop_device m chunks :
  (∀ x, P (EvGenerate m x)) →
  ∀ d incr i acc, emits P (whisper_loop E m d incr i chunks acc).
Proof.
  intros Hcall.
  induction chunks as [|c rest IH]; intros; simpl.
  - apply emits_ret.
  - apply emits_bind; [apply emits_checkpoint_device|intros _].
    apply emits_bind; [apply emits_librosa_load|intros audio].
    apply emits_bind; [apply emits_emit, Hcall|intros _].
    apply emits_bind; [apply emits_of_result|intros decoded].
    apply emits_bind; [destruct decoded; auto with emits|intros t].
    apply emits_bind; [|intros _; apply IH].
    apply emits_if; [apply emits_emit, P_device; reflexivity|apply emits_ret].
Qed.

Lemma emits_prep_transc_pydub_kinds clip src d dur :
  emits P (prep_transc_pydub E clip src d dur).
Proof.
  intros w. rewrite prep_transc_pydub_run.
  destruct (segment E src clip dur) as [chunks|e]; simpl.
  - constructor; [apply P_segment|].
    apply Forall_map, Forall_forall. intros c _. apply P_audio.
  - repeat constructor. apply P_segment.
Qed.

Lemma emits_finish_transcription_kinds src clip dur d chunks full :
  emits P (finish_transcription E src clip dur d chunks full).
Proof.
  unfold finish_transcription, save_transc_results.
  apply emits_bind; [apply emits_get_timestamp|intros ts].
  apply emits_bind.
  - apply emits_bind; [apply emits_setup_out_dirs|intros [t m]].
    apply emits_bind; [apply emits_get_timestamp|intros ts'].
    apply emits_bind; [apply emits_write_file, P_output; reflexivity|intros _].
    apply emits_write_file, P_output; reflexivity.
  - intros _. apply emits_bind; [apply emits_rmtree, P_rmtree|intros _].
    apply emits_ret.
Qed.

Lemma emits_transcribe_video_wav2vec_kinds m p src clip dur tmp :
  (∀ x, P (EvModelCall m x (spec_use_masking m))) →
  emits P (transcribe_video_wav2vec E m p src clip dur tmp).
Proof.
  intros Hcall w. unfold transcribe_video_wav2vec.
  rewrite bind_unfold. cbn [create_folder res world trace app].
  rewrite bind_unfold, wav2vec2_islarge_run. cbn [res world trace].
  apply Forall_app. split.
  - destruct (model_class m); repeat constructor. apply P_num_parameters.
  - match goal with
    | |- Forall _ (trace (?k ?w0)) => generalize w0; change (emits P k)
    end.
    apply emits_bind; [apply emits_prep_transc_pydub_kinds|intros chunks].
    apply emits_bind; [apply emits_emit, P_device; reflexivity|intros _].
    apply emits_bind; [apply emits_emit, P_device; reflexivity|intros _].
    apply emits_bind; [apply emits_wav2vec_loop_device, Hcall|intros full].
    apply emits_finish_transcription_kinds.
Qed.

Lemma emits_transcribe_video_whisper_kinds m p src clip dur tmp :
  (∀ x, P (EvGenerate m x)) →
  emits P (transcribe_video_whisper E m p src clip dur tmp).
Proof.
  intros Hcall. unfold transcribe_video_whisper.
  apply emits_bind; [apply emits_create_folder|intros _].
  apply emits_bind; [apply emits_prep_transc_pydub_kinds|intros chunks].
  apply emits_bind; [apply emits_emit, P_device; reflexivity|intros _].
  apply emits_bind; [apply emits_emit, P_device; reflexivity|intros _].
  apply emits_bind; [apply emits_whisper_loop_device, Hcall|intros full].
  apply emits_finish_transcription_kinds.
Qed.

Lemma emits_wav2vec_files_kinds m p d dur mc files :
  (∀ x, P (EvModelCall m x (spec_use_masking m))) →
  emits P (transcribe_files E false m p d dur mc files).
Proof.
  intros Hcall.
  induction files as [|f rest IH]; simpl; [apply emits_ret|].
  apply emits_bind; [|intros _; exact IH].
  unfold transcribe_one.
  apply emits_bind; [apply emits_transcribe_video_wav2vec_kinds, Hcall|intros _].
  destruct mc; [apply emits_move2completed, P_move|apply emits_ret].
Qed.

End EventKinds.

Section SetupEvents.

Variable E : Env.
Variable P : Event → Prop.
Hypothesis P_init_neuspell : P EvInitNeuspell.
Hypothesis P_init_symspell : P EvInitSymspell.
Hypothesis P_warning : ∀ msg, P (LogWarning msg).

Lemma emits_init_symspell : emits P (init_symspell E).
Proof.
  unfold init_symspell.
  apply emits_bind; [apply emits_emit, P_init_symspell|intros _].
  destruct (symspell_fault E); auto with emits.
Qed.

Lemma emits_init_neuspell : emits P (init_neuspell E).
Proof.
  unfold init_neuspell.
  apply emits_bind; [apply emits_emit, P_init_neuspell|intros _].
  destruct (neuspell_fault E); auto with emits.
Qed.

Lemma emits_acquire_checker base_spelling :
  emits P (acquire_checker E base_spelling).
Proof.
  unfold acquire_checker. destruct base_spelling.
  - apply emits_bind; [apply emits_init_symspell|intros c]. apply emits_ret.
  - apply emits_try_except.
    + apply emits_bind; [apply emits_init_neuspell|intros c]. apply emits_ret.
    + intros e.
      apply emits_bind; [apply emits_emit, P_warning|intros _].
      apply emits_bind; [apply emits_emit, P_warning|intros _].
      apply emits_bind; [apply emits_init_symspell|intros c]. apply emits_ret.
Qed.

Lemma emits_load_wav2vec2_modules hf_id : emits P (load_wav2vec2_modules E hf_id).
Proof.
  intros w. rewrite (proj2 (load_wav2vec2_modules_quiet E hf_id w)). constructor.
Qed.

Lemma emits_transcribe_dir_setup directory model_id base_spelling :
  emits P (transcribe_dir_setup E directory model_id base_spelling).
Proof.
  unfold transcribe_dir_setup.
  apply emits_bind; [destruct model_id; auto with emits|intros iw].
  apply emits_bind;
    [destruct iw; [apply emits_raise|apply emits_load_wav2vec2_modules]|].
  intros [processor model].
  apply emits_bind; [apply emits_acquire_checker|intros [bs checker]].
  apply emits_bind; [apply emits_find_approved_files|intros files].
  apply emits_bind; [apply emits_setup_out_dirs|intros [t m]].
  apply emits_ret.
Qed.

End SetupEvents.

(** ** The attention mask over a whole run *)

Section MaskOverARun.

Variable E : Env.

Lemma no_model_event_flags tr :
  Forall (fun ev => is_model_event ev = false) tr →
  attention_flags tr = [] ∧ ∀ flag, Forall (mask_is flag) tr.
Proof.
  induction 1 as [|ev tr Hev _ [IH1 IH2]]; [split; [reflexivity|constructor]|].
  split.
  - destruct ev; try discriminate Hev; exact IH1.
  - intros flag. constructor; [|apply IH2].
    destruct ev; try discriminate Hev; exact I.
Qed.

Lemma mask_is_flags flag tr :
  Forall (mask_is flag) tr → Forall (fun b => b = flag) (attention_flags tr).
Proof.
  induction 1 as [|ev tr Hev _ IH]; [constructor|].
  destruct ev; try exact IH. simpl in Hev. subst.
  unfold attention_flags. simpl. constructor; [reflexivity|exact IH].
Qed.

(** The model a run works with. *)
Lemma transcribe_dir_setup_model directory id base_spelling w ctx :
  res (transcribe_dir_setup E directory (Some id) base_spelling w) = Ok ctx →
  model_class (ctx_model ctx) = ctc_class_of id ∧
  model_hf_id (ctx_model ctx) = id.
Proof.
  unfold transcribe_dir_setup. intros H.
  apply bind_res_ok in H. destruct H as (iw & Hiw & H).
  injection Hiw as <-.
  apply bind_res_ok in H. destruct H as ([processor model] & Hload & H).
  apply bind_res_ok in H. destruct H as ([bs checker] & _ & H).
  apply bind_res_ok in H. destruct H as (files & _ & H).
  apply bind_res_ok in H. destruct H as ([t m] & _ & H).
  injection H as <-. cbn [ctx_model].
  destruct (contains "whisper" (lower id)); [discriminate Hload|].
  cbn [mret M_ret world] in Hload.
  unfold load_wav2vec2_modules, from_pretrained, ctc_class_of in *.
  apply bind_res_ok in Hload. destruct Hload as (tok & _ & Hload).
  apply bind_res_ok in Hload. destruct Hload as (model' & Hmodel & Hload).
  injection Hload as _ <-.
  destruct (contains "wavlm" (lower id)); [|destruct (contains "hubert" (lower id))];
    apply bind_res_ok in Hmodel; destruct Hmodel as (n & _ & Hmodel);
    injection Hmodel as <-; split; reflexivity.
Qed.

Lemma transcribe_dir_mask input_dir dur model_id bs mc jt v w :
  let s := transcribe_dir_setup E (abspath input_dir) model_id bs w in
  let o := transcribe_dir E input_dir dur model_id bs mc jt v w in
  match res s with
  | Ok ctx => Forall (mask_is (spec_use_masking (ctx_model ctx))) (trace o)
  | Raise _ => attention_flags (trace o) = []
  end.
Proof.
  intros s o. subst s o. unfold transcribe_dir. cbv zeta.
  assert (Forall (fun ev => is_model_event ev = false)
            (trace (transcribe_dir_setup E (abspath input_dir) model_id bs w)))
    as Hsetup by (apply emits_transcribe_dir_setup; reflexivity).
  apply no_model_event_flags in Hsetup. destruct Hsetup as [Hnil Hmask].
  rewrite bind_unfold.
  destruct (res (transcribe_dir_setup E (abspath input_dir) model_id bs w))
    as [ctx|e] eqn:Hs; cbn [trace]; [|exact Hnil].
  apply Forall_app. split; [apply Hmask|].
  rewrite (transcribe_dir_setup_not_whisper _ _ _ _ _ _ Hs).
  match goal with
  | |- Forall _ (trace (?k ?w0)) =>
      generalize w0;
      change (emits (mask_is (spec_use_masking (ctx_model ctx))) k)
  end.
  apply emits_bind; [|intros _].
  - apply emits_wav2vec_files_kinds; try (intros; exact I).
    + intros ev Hev. destruct ev; try discriminate Hev; exact I.
    + intros x. reflexivity.
  - apply emits_bind; [|intros dir; apply emits_ret].
    apply emits_postprocess_transc; intros; exact I.
Qed.

(** X1: whatever the identifier and the files, all model calls of one run
    of [transcribe_dir] agree on the attention mask: every chunk of every
    file is decoded with the flag that [wav2vec2_islarge] gives for the
    model the run has loaded. *)
Theorem attention_mask_constant_over_a_run
    (input_dir : string) (chunk_length : Z) (model_id : option string)
    (basic_spelling move_comp join_text verbose : bool) (w : World) :
  let s := transcribe_dir_setup E (abspath input_dir) model_id basic_spelling w in
  let o := transcribe_dir E input_dir chunk_length model_id basic_spelling
             move_comp join_text verbose w in
  (∃ flag, Forall (fun b => b = flag) (attention_flags (trace o))) ∧
  match res s with
  | Ok ctx => Forall (fun b => b = spec_use_masking (ctx_model ctx))
                (attention_flags (trace o))
  | Raise _ => attention_flags (trace o) = []
  end.
Proof.
  intros s o.
  pose proof (transcribe_dir_mask input_dir chunk_length model_id basic_spelling
                move_comp join_text verbose w) as H.
  cbv zeta in H. fold s o in H.
  destruct (res s) as [ctx|e].
  - apply mask_is_flags in H. split; [eexists; exact H|exact H].
  - rewrite H. split; [exists false|]; constructor.
Qed.

(** X2: a model identifier that names a Hubert or a WavLM model (in any
    casing) never gets an attention mask, whatever its size: such a run
    loads [HubertForCTC] or [WavLMForCTC], for which [wav2vec2_islarge]
    answers false. *)
Theorem hubert_and_wavlm_run_without_mask
    (input_dir : string) (chunk_length : Z) (hf_id : string)
    (basic_spelling move_comp join_text verbose : bool) (w : World) :
  contains "wavlm" (lower hf_id) || contains "hubert" (lower hf_id) = true →
  Forall (fun b => b = false)
    (attention_flags
       (trace (transcribe_dir E input_dir chunk_length (Some hf_id)
                 basic_spelling move_comp join_text verbose w))).
Proof.
  intros Hid.
  pose proof (transcribe_dir_mask input_dir chunk_length (Some hf_id)
                basic_spelling move_comp join_text verbose w) as H.
  cbv zeta in H.
  destruct (res (transcribe_dir_setup E (abspath input_dir) (Some hf_id)
                   basic_spelling w)) as [ctx|e] eqn:Hs.
  - apply mask_is_flags in H.
    destruct (transcribe_dir_setup_model _ _ _ _ _ Hs) as [Hclass _].
    assert (spec_use_masking (ctx_model ctx) = false) as Hflag.
    { unfold spec_use_masking. rewrite Hclass. unfold ctc_class_of.
      destruct (contains "wavlm" (lower hf_id)); [reflexivity|].
      simpl in Hid. rewrite Hid. reflexivity. }
    rewrite Hflag in H. exact H.
  - rewrite H. constructor.
Qed.

End MaskOverARun.

Lemma hubert_and_wavlm_run_without_mask_witness :
  let o := transcribe_dir (example_env None None) "/in" 30
             (Some "facebook/hubert-large-ls960-ft") false false false false
             (world_with ["lecture.mp3"] 0) in
  attention_flags (trace o) = [false; false; false].
Proof.
  intros o.
  pose proof (hubert_and_wavlm_run_without_mask (example_env None None) "/in" 30
                "facebook/hubert-large-ls960-ft" false false false false
                (world_with ["lecture.mp3"] 0) eq_refl) as H.
  fold o in H.
  assert (length (attention_flags (trace o)) = 3) as Hlen
    by (vm_compute; reflexivity).
  destruct (attention_flags (trace o)) as [|b1 [|b2 [|b3 [|b4 l]]]];
    try discriminate Hlen.
  inversion H as [|? ? -> H']. inversion H' as [|? ? -> H''].
  inversion H'' as [|? ? -> _]. reflexivity.
Defined.

(** ** The size test as a threshold *)


(** ** Fragments and chunks *)

Section Fragments.

Variable E : Env.

Lemma append_inj_l (s a b : string) : s +:+ a = s +:+ b → a = b.
Proof. induction s as [|c s IH]; simpl; [auto|]. intros [= H]. auto. Qed.

Lemma join_inj (d a b : string) : join d a = join d b → a = b.
Proof.
  unfold join. intros H. apply append_inj_l in H. apply append_inj_l in H.
  exact H.
Qed.

(** A chunk file is written under its own name only. *)
Lemma with_chunks_other d chunks : ∀ (fs : gmap string Content) p,
  (∀ c, c ∈ chunks → p ≠ join d c.1) →
  with_chunks d chunks fs !! p = fs !! p.
Proof.
  induction chunks as [|[n s] rest IH]; intros fs p H; cbn [with_chunks foldl];
    [reflexivity|].
  change (with_chunks d rest (<[join d n := Audio s]> fs) !! p = fs !! p).
  rewrite IH by (intros c Hc; apply H; right; exact Hc).
  apply lookup_insert_ne. intros Heq. apply (H (n, s)); [left|].
  symmetry. exact Heq.
Qed.

(** With distinct names every chunk file holds its own samples. *)
Lemma with_chunks_lookup d chunks : ∀ (fs : gmap string Content) n s,
  NoDup (map fst chunks) →
  (n, s) ∈ chunks →
  with_chunks d chunks fs !! join d n = Some (Audio s).
Proof.
  induction chunks as [|[n0 s0] rest IH]; intros fs n s Hnd Hin.
  - apply elem_of_nil in Hin. destruct Hin.
  - cbn [map fst] in Hnd. apply NoDup_cons in Hnd. destruct Hnd as [Hfresh Hnd].
    change (with_chunks d rest (<[join d n0 := Audio s0]> fs) !! join d n =
            Some (Audio s)).
    apply elem_of_cons in Hin. destruct Hin as [[= -> ->]|Hin].
    + rewrite with_chunks_other; [apply lookup_insert_eq|].
      intros [n' s'] Hc Heq. apply join_inj in Heq. cbn [fst] in Heq. subst n'.
      apply Hfresh. apply list_elem_of_fmap. exists (n0, s'). split; [reflexivity|exact Hc].
    + apply IH; assumption.
Qed.

(** The CTC loop over chunk files that are there and all decode. *)
Lemma wav2vec_loop_fragments m ua d incr chunks decs :
  Forall2 (fun (c : string * string) dec => ctc_decode E m c.2 ua = Ok dec)
    chunks decs →
  ∀ i acc w,
    (∀ c, c ∈ chunks → files w !! join d c.1 = Some (Audio c.2)) →
    res (wav2vec_loop E m ua d incr i (map fst chunks) acc w) =
    Ok (acc ++ map (fun dec => join_if_list dec +:+ newline) decs).
Proof.
  induction 1 as [|[n s] dec chunks decs Hdec _ IH]; intros i acc w Hfiles.
  - simpl. rewrite app_nil_r. reflexivity.
  - cbn [map fst wav2vec_loop].
    rewrite bind_unfold, checkpoint_res, checkpoint_world. cbn [res world].
    pose proof (Hfiles (n, s) ltac:(left)) as Hn. cbn [fst snd] in Hn.
    rewrite bind_unfold. unfold librosa_load at 1 2.
    rewrite Hn. cbn [res world].
    rewrite bind_unfold. cbn [emit res world].
    rewrite bind_unfold. cbn [snd] in Hdec. rewrite Hdec.
    cbn [of_result res world].
    rewrite bind_unfold, empty_cache_res, empty_cache_world. cbn [res world].
    rewrite IH by (intros c Hc; apply Hfiles; right; exact Hc).
    cbn [map]. rewrite <- app_assoc. reflexivity.
Qed.

(** X4: when the segmenter gives chunk files with distinct names and
    every chunk decodes, [transcribe_video_wav2vec] returns; its fragments
    are the decoded chunks in chunk order, each closed by a line feed, the
    transcript is [corr] of the fragments joined by a blank, and the one
    row records it. *)
Theorem fragments_follow_chunk_order
    (ts_model : Model) (processor : Processor) (src_dir clip_name : string)
    (chunk_dur : Z) (temp_dir : string) (w : World)
    (chunks : list (string * string)) (decs : list (list string)) :
  segment E src_dir clip_name chunk_dur = Ok chunks →
  NoDup (map fst chunks) →
  Forall2 (fun (c : string * string) dec =>
             ctc_decode E ts_model c.2 (spec_use_masking ts_model) = Ok dec)
    chunks decs →
  let fragments := map (fun dec => join_if_list dec +:+ newline) decs in
  res (transcribe_video_wav2vec E ts_model processor src_dir clip_name chunk_dur
         temp_dir w) =
  Ok {| audio_transcription := fragments;
        metadata := [metadata_row clip_name (length chunks) chunk_dur
                       (stamp E (clock w))
                       (corr E (str_join " " fragments))] |}.
Proof.
  intros Hseg Hnd Hdecs fragments.
  rewrite transcribe_video_wav2vec_phases. cbv zeta.
  rewrite prep_transc_pydub_run, Hseg. cbn [res world trace].
  rewrite (wav2vec_loop_fragments _ _ _ _ chunks decs Hdecs).
  - cbn [res app]. rewrite finish_transcription_res.
    cbn [clock]. rewrite length_map. reflexivity.
  - intros [n s] Hc. cbn [files fst snd]. apply with_chunks_lookup; assumption.
Qed.

(** X5: a recording for which the segmenter gives no chunk is not an
    error.  The call returns with no fragment and a row of 0 chunks and
    duration 0 whose text is [corr] of the empty string and whose word
    count is at least 1; the model is never called and no checkpoint
    fires; for both decoding variants. *)
Theorem no_chunks_is_not_an_error (whisper : bool) (model : Model)
    (processor : Processor) (src_dir clip_name : string) (chunk_dur : Z)
    (temp_dir : string) (w : World) :
  segment E src_dir clip_name chunk_dur = Ok [] →
  let o := (if whisper
            then transcribe_video_whisper E model processor src_dir clip_name
                   chunk_dur temp_dir
            else transcribe_video_wav2vec E model processor src_dir clip_name
                   chunk_dur temp_dir) w in
  let row := metadata_row clip_name 0 chunk_dur (stamp E (clock w))
               (corr E EmptyString) in
  res o = Ok {| audio_transcription := []; metadata := [row] |} ∧
  (md_duration_min row == 0)%Q ∧
  1 ≤ md_num_words row ∧
  List.filter is_model_event (trace o) = [] ∧
  checkpoint_indices 0 (trace o) = [].
Proof.
  intros Hseg o row. subst o. destruct whisper.
  - rewrite transcribe_video_whisper_phases. cbv zeta.
    rewrite prep_transc_pydub_run, Hseg. cbn [res world trace map length].
    cbn [whisper_loop mret M_ret res trace].
    rewrite finish_transcription_res. cbn [clock length str_join].
    split; [reflexivity|]. split; [reflexivity|].
    split; [cbn [md_num_words row metadata_row]; rewrite split_on_length; lia|].
    split; reflexivity.
  - rewrite transcribe_video_wav2vec_phases. cbv zeta.
    rewrite prep_transc_pydub_run, Hseg. cbn [res world trace map length].
    cbn [wav2vec_loop mret M_ret res trace].
    rewrite finish_transcription_res. cbn [clock length str_join].
    split; [reflexivity|]. split; [reflexivity|].
    split; [cbn [md_num_words row metadata_row]; rewrite split_on_length; lia|].
    split; destruct (model_class model); reflexivity.
Qed.

End Fragments.

(** ** What a call writes, and where *)

Section Outputs.

Variable E : Env.

Lemma append_length (a b : string) :
  String.length (a +:+ b) = String.length a + String.length b.
Proof. induction a as [|c a IH]; simpl; [reflexivity|]. rewrite IH. reflexivity. Qed.

Lemma append_inj_r (s a b : string) : a +:+ s = b +:+ s → a = b.
Proof.
  revert b. induction a as [|c a IH]; intros [|c' b] H; simpl in H.
  - reflexivity.
  - apply (f_equal String.length) in H. simpl in H.
    rewrite !append_length in H. simpl in H. lia.
  - apply (f_equal String.length) in H. simpl in H.
    rewrite !append_length in H. simpl in H. lia.
  - injection H as -> H. f_equal. apply IH, H.
Qed.

Lemma last_char_append (a b : string) :
  b ≠ EmptyString → last_char (a +:+ b) = last_char b.
Proof.
  intros Hb. induction a as [|c a IH]; simpl; [reflexivity|].
  rewrite IH. destruct (a +:+ b) eqn:Hab; [|reflexivity].
  destruct a; simpl in Hab; [contradiction|discriminate Hab].
Qed.

Lemma startswith_append (a b : string) : startswith a (a +:+ b) = true.
Proof.
  induction a as [|c a IH]; simpl; [reflexivity|].
  rewrite Ascii.eqb_refl. exact IH.
Qed.

Lemma append_assoc (a b c : string) : (a +:+ b) +:+ c = a +:+ (b +:+ c).
Proof.
  induction a as [|x a IH]; [reflexivity|]. exact (f_equal (String x) IH).
Qed.

(** Everything joined to the scratch directory lies under it. *)
Lemma is_under_join d n : is_under d (join d n) = true.
Proof.
  unfold is_under, join. rewrite <- append_assoc, startswith_append.
  apply orb_true_r.
Qed.

(** The transcript and the metadata never share a path: the one ends in
    [t], the other in [v]. *)
Lemma transcript_path_not_metadata_path out1 out2 v1 v2 ts1 ts2 :
  transcript_path E out1 v1 ts1 ≠ metadata_path E out2 v2 ts2.
Proof.
  unfold transcript_path, metadata_path, join. intros H.
  apply (f_equal last_char) in H.
  rewrite <- !append_assoc in H.
  rewrite !last_char_append in H by discriminate.
  discriminate H.
Qed.

Lemma transcript_path_stamp out v ts1 ts2 :
  transcript_path E out v ts1 = transcript_path E out v ts2 → ts1 = ts2.
Proof.
  unfold transcript_path, output_header. intros H.
  apply join_inj in H. apply append_inj_r in H.
  apply append_inj_l in H. apply append_inj_l in H. exact H.
Qed.

Lemma metadata_path_stamp out v ts1 ts2 :
  metadata_path E out v ts1 = metadata_path E out v ts2 → ts1 = ts2.
Proof.
  unfold metadata_path, output_header. intros H.
  apply join_inj in H. apply append_inj_r in H.
  apply append_inj_l in H. apply append_inj_l in H. exact H.
Qed.

Lemma no_output_trace tr : Forall no_output tr → persisted_outputs tr = [].
Proof.
  induction 1 as [|ev tr Hev _ IH]; [reflexivity|].
  destruct ev; try exact IH. simpl in Hev.
  unfold persisted_outputs. simpl. rewrite Hev. exact IH.
Qed.

Lemma persisted_outputs_app t1 t2 :
  persisted_outputs (t1 ++ t2) = persisted_outputs t1 ++ persisted_outputs t2.
Proof. apply omap_app. Qed.

(** The tail of both inference functions, spelled out. *)
Lemma finish_transcription_run src clip dur d chunks full w :
  let ts := stamp E (clock w) in
  let text := corr E (str_join " " full) in
  let row := metadata_row clip (length chunks) dur ts text in
  finish_transcription E src clip dur d chunks full w =
  Outcome (Ok {| audio_transcription := full; metadata := [row] |})
    {| dirs := filter (fun p => is_under d p = false)
                 ({[ join src (m_folder_name E) ]} ∪
                  ({[ join src (t_folder_name E) ]} ∪ dirs w));
       files := filter (fun kv : string * Content => is_under d kv.1 = false)
                  (<[ metadata_path E src clip ts := MetaCsv [row] ]>
                     (<[ transcript_path E src clip ts := Text text ]> (files w)));
       clock := clock w |}
    [EvWriteFile (transcript_path E src clip ts) (Text text);
     EvWriteFile (metadata_path E src clip ts) (MetaCsv [row]);
     EvRmtree d].
Proof. reflexivity. Qed.

Lemma filter_lookup_outside d (m : gmap string Content) p :
  is_under d p = false →
  filter (fun kv : string * Content => is_under d kv.1 = false) m !! p = m !! p.
Proof.
  intros Hp. destruct (m !! p) as [c|] eqn:Hm.
  - apply map_lookup_filter_Some_2; [exact Hm|exact Hp].
  - apply map_lookup_filter_None_2. left. exact Hm.
Qed.

Lemma with_chunks_outside d chunks (fs : gmap string Content) p :
  is_under d p = false → with_chunks d chunks fs !! p = fs !! p.
Proof.
  intros Hp. apply with_chunks_other. intros c _ ->.
  rewrite is_under_join in Hp. discriminate Hp.
Qed.

(** What the events before the tail persist: nothing. *)
Lemma before_finish_no_output (asked : list Event) clip src d dur w0 lo :
  Forall no_output asked →
  Forall no_output lo →
  persisted_outputs
    (asked ++ trace (prep_transc_pydub E clip src d dur w0) ++
     [EvValidateCuda; EvGcCollect] ++ lo) = [].
Proof.
  intros Hasked Hlo. apply no_output_trace.
  apply Forall_app. split; [exact Hasked|].
  apply Forall_app. split.
  - apply emits_prep_transc_pydub_kinds; intros; exact I || reflexivity.
  - repeat constructor. exact Hlo.
Qed.

(** X6: a call that raises has persisted nothing, neither a partial
    transcript nor a row; a call that returns has written exactly two
    outputs, the transcript and then the metadata table, whose names share
    the header made of the trimmed clip name and the timestamp; for both
    decoding variants. *)
Theorem outputs_written_only_on_return (whisper : bool) (model : Model)
    (processor : Processor) (src_dir clip_name : string) (chunk_dur : Z)
    (temp_dir : string) (w : World) :
  let o := (if whisper
            then transcribe_video_whisper E model processor src_dir clip_name
                   chunk_dur temp_dir
            else transcribe_video_wav2vec E model processor src_dir clip_name
                   chunk_dur temp_dir) w in
  let ts := stamp E (clock w) in
  persisted_outputs (trace o) =
  match res o with
  | Ok _ => [transcript_path E src_dir clip_name ts;
             metadata_path E src_dir clip_name ts]
  | Raise _ => []
  end.
Proof.
  intros o ts. subst o. destruct whisper.
  - rewrite transcribe_video_whisper_phases. cbv zeta.
    set (po := prep_transc_pydub E clip_name src_dir (join src_dir temp_dir)
                 chunk_dur (world (create_folder (join src_dir temp_dir) w))).
    assert (Forall no_output (trace po)) as Hpo
      by (apply emits_prep_transc_pydub_kinds; intros; exact I || reflexivity).
    assert (world po = world po ∧ clock (world po) = clock w) as [_ Hclock].
    { split; [reflexivity|]. subst po. rewrite prep_transc_pydub_run.
      destruct (segment E src_dir clip_name chunk_dur); reflexivity. }
    destruct (res po) as [cd|e]; cbn [res trace];
      [|apply no_output_trace, Hpo].
    match goal with
    | |- context [res ?lo] =>
        lazymatch lo with
        | whisper_loop _ _ _ _ _ _ _ _ =>
            assert (Forall no_output (trace lo)) as Hlo
              by (apply emits_whisper_loop_device;
                  [intros ev Hev; destruct ev; try discriminate Hev; exact I
                  |intros x; exact I]);
            destruct (res lo) as [full|e']
        end
    end; cbn [res trace].
    + rewrite finish_transcription_run. cbn [res trace]. rewrite Hclock.
      rewrite !persisted_outputs_app.
      rewrite (no_output_trace _ Hpo), (no_output_trace _ Hlo). reflexivity.
    + apply no_output_trace. apply Forall_app. split; [exact Hpo|].
      repeat constructor. exact Hlo.
  - rewrite transcribe_video_wav2vec_phases. cbv zeta.
    set (po := prep_transc_pydub E clip_name src_dir (join src_dir temp_dir)
                 chunk_dur (world (create_folder (join src_dir temp_dir) w))).
    set (asked := match model_class model with
                  | Wav2Vec2ForCTC => [EvNumParameters model]
                  | _ => []
                  end).
    assert (Forall no_output asked) as Hasked
      by (subst asked; destruct (model_class model); repeat constructor).
    assert (Forall no_output (trace po)) as Hpo
      by (apply emits_prep_transc_pydub_kinds; intros; exact I || reflexivity).
    assert (clock (world po) = clock w) as Hclock.
    { subst po. rewrite prep_transc_pydub_run.
      destruct (segment E src_dir clip_name chunk_dur); reflexivity. }
    destruct (res po) as [cd|e]; cbn [res trace].
    2: { apply no_output_trace, Forall_app. split; assumption. }
    match goal with
    | |- context [res ?lo] =>
        lazymatch lo with
        | wav2vec_loop _ _ _ _ _ _ _ _ _ =>
            assert (Forall no_output (trace lo)) as Hlo
              by (apply emits_wav2vec_loop_device;
                  [intros ev Hev; destruct ev; try discriminate Hev; exact I
                  |intros x; exact I]);
            destruct (res lo) as [full|e']
        end
    end; cbn [res trace].
    + rewrite finish_transcription_run. cbn [res trace]. rewrite Hclock.
      rewrite !persisted_outputs_app.
      rewrite (no_output_trace _ Hasked), (no_output_trace _ Hpo),
        (no_output_trace _ Hlo). reflexivity.
    + apply no_output_trace. apply Forall_app. split; [exact Hasked|].
      apply Forall_app. split; [exact Hpo|].
      repeat constructor. exact Hlo.
Qed.

End Outputs.

(** ** What a call leaves alone, and what it leaves behind *)

Section Frame.

Variable E : Env.

Lemma transcribe_video_world (whisper : bool) m p src clip dur tmp w :
  let d := join src tmp in
  let ts := stamp E (clock w) in
  let o := (if whisper
            then transcribe_video_whisper E m p src clip dur tmp
            else transcribe_video_wav2vec E m p src clip dur tmp) w in
  match res o with
  | Ok r =>
      ∃ chunks,
        world o =
        {| dirs := filter (fun q => is_under d q = false)
                     ({[ join src (m_folder_name E) ]} ∪
                      ({[ join src (t_folder_name E) ]} ∪ ({[ d ]} ∪ dirs w)));
           files := filter (fun kv : string * Content => is_under d kv.1 = false)
                      (<[ metadata_path E src clip ts := MetaCsv (metadata r) ]>
                         (<[ transcript_path E src clip ts :=
                               Text (corr E (str_join " " (audio_transcription r))) ]>
                            (with_chunks d chunks (files w))));
           clock := clock w |}
  | Raise _ =>
      ∃ chunks,
        world o = {| dirs := {[ d ]} ∪ dirs w;
                     files := with_chunks d chunks (files w);
                     clock := clock w |}
  end.
Proof.
  intros d ts o. subst o. destruct whisper.
  - rewrite transcribe_video_whisper_phases. cbv zeta. fold d.
    rewrite prep_transc_pydub_run.
    destruct (segment E src clip dur) as [chunks|e]; cbn [res world];
      [|exists []; reflexivity].
    destruct (res (whisper_loop _ _ _ _ _ _ _ _)) as [full|e]; cbn [res world];
      [|exists chunks; reflexivity].
    rewrite finish_transcription_run. cbn [res world clock]. exists chunks.
    reflexivity.
  - rewrite transcribe_video_wav2vec_phases. cbv zeta. fold d.
    rewrite prep_transc_pydub_run.
    destruct (segment E src clip dur) as [chunks|e]; cbn [res world];
      [|exists []; reflexivity].
    destruct (res (wav2vec_loop _ _ _ _ _ _ _ _ _)) as [full|e]; cbn [res world];
      [|exists chunks; reflexivity].
    rewrite finish_transcription_run. cbn [res world clock]. exists chunks.
    reflexivity.
Qed.

Lemma transcribe_video_files_outside (whisper : bool) m p src clip dur tmp w q :
  let o := (if whisper
            then transcribe_video_whisper E m p src clip dur tmp
            else transcribe_video_wav2vec E m p src clip dur tmp) w in
  is_under (join src tmp) q = false →
  q ≠ transcript_path E src clip (stamp E (clock w)) →
  q ≠ metadata_path E src clip (stamp E (clock w)) →
  files (world o) !! q = files w !! q.
Proof.
  intros o Hq Ht Hm. subst o.
  pose proof (transcribe_video_world whisper m p src clip dur tmp w) as H.
  cbv zeta in H.
  destruct (res _) as [r|e]; destruct H as [chunks ->]; cbn [files].
  - rewrite filter_lookup_outside by exact Hq.
    rewrite !lookup_insert_ne by congruence.
    apply with_chunks_outside, Hq.
  - apply with_chunks_outside, Hq.
Qed.

Lemma transcribe_video_outputs_kept (whisper : bool) m p src clip dur tmp w r :
  let o := (if whisper
            then transcribe_video_whisper E m p src clip dur tmp
            else transcribe_video_wav2vec E m p src clip dur tmp) w in
  let ts := stamp E (clock w) in
  res o = Ok r →
  is_under (join src tmp) (transcript_path E src clip ts) = false →
  is_under (join src tmp) (metadata_path E src clip ts) = false →
  files (world o) !! transcript_path E src clip ts =
    Some (Text (corr E (str_join " " (audio_transcription r)))) ∧
  files (world o) !! metadata_path E src clip ts = Some (MetaCsv (metadata r)).
Proof.
  intros o ts Hres Ht Hm. subst o.
  pose proof (transcribe_video_world whisper m p src clip dur tmp w) as H.
  cbv zeta in H. rewrite Hres in H. destruct H as [chunks ->]. cbn [files].
  rewrite !filter_lookup_outside by assumption. split.
  - rewrite lookup_insert_ne
      by (intros Heq; symmetry in Heq;
          exact (transcript_path_not_metadata_path E _ _ _ _ _ _ Heq)).
    apply lookup_insert_eq.
  - apply lookup_insert_eq.
Qed.


(** X8: after a call that returns, the transcript file holds exactly the
    text of the returned row and the metadata file exactly the returned
    table, provided the two output paths do not lie inside the scratch
    directory (which the final [rmtree] empties); for both decoding
    variants. *)
Theorem outputs_hold_the_returned_result (whisper : bool) (model : Model)
    (processor : Processor) (src_dir clip_name : string) (chunk_dur : Z)
    (temp_dir : string) (w : World) (r : TranscRes) :
  let o := (if whisper
            then transcribe_video_whisper E model processor src_dir clip_name
                   chunk_dur temp_dir
            else transcribe_video_wav2vec E model processor src_dir clip_name
                   chunk_dur temp_dir) w in
  let ts := stamp E (clock w) in
  res o = Ok r →
  is_under (join src_dir temp_dir) (transcript_path E src_dir clip_name ts) = false →
  is_under (join src_dir temp_dir) (metadata_path E src_dir clip_name ts) = false →
  ∃ row, metadata r = [row] ∧
         files (world o) !! transcript_path E src_dir clip_name ts =
           Some (Text (md_full_text row)) ∧
         files (world o) !! metadata_path E src_dir clip_name ts =
           Some (MetaCsv [row]).
Proof.
  intros o ts Hres Ht Hm.
  destruct (transcribe_video_outputs_kept whisper model processor src_dir
              clip_name chunk_dur temp_dir w r Hres Ht Hm) as [Hfile Hmeta].
  destruct (transcribe_video_returns E whisper _ _ _ _ _ _ _ _ Hres)
    as (chunks & _ & _ & Hmd).
  eexists. split; [exact Hmd|]. subst o ts. cbv zeta in Hfile, Hmeta.
  rewrite Hfile, Hmeta, Hmd. split; reflexivity.
Qed.

(** X9: transcribing the same recording again at a time with another
    timestamp does not overwrite the first results: after the second call
    both transcripts and both metadata tables are on disk, under names that
    differ in the timestamp only; for both decoding variants. *)
Theorem second_run_keeps_first_outputs (whisper : bool) (model : Model)
    (processor : Processor) (src_dir clip_name : string) (chunk_dur : Z)
    (temp_dir : string) (w : World) (now : nat) (r1 r2 : TranscRes) :
  let run := if whisper
             then transcribe_video_whisper E model processor src_dir clip_name
                    chunk_dur temp_dir
             else transcribe_video_wav2vec E model processor src_dir clip_name
                    chunk_dur temp_dir in
  let o1 := run w in
  let o2 := run (later now (world o1)) in
  let ts1 := stamp E (clock w) in
  let ts2 := stamp E now in
  res o1 = Ok r1 →
  res o2 = Ok r2 →
  ts1 ≠ ts2 →
  (∀ ts, is_under (join src_dir temp_dir)
           (transcript_path E src_dir clip_name ts) = false ∧
         is_under (join src_dir temp_dir)
           (metadata_path E src_dir clip_name ts) = false) →
  files (world o2) !! transcript_path E src_dir clip_name ts1 =
    Some (Text (corr E (str_join " " (audio_transcription r1)))) ∧
  files (world o2) !! metadata_path E src_dir clip_name ts1 =
    Some (MetaCsv (metadata r1)) ∧
  files (world o2) !! transcript_path E src_dir clip_name ts2 =
    Some (Text (corr E (str_join " " (audio_transcription r2)))) ∧
  files (world o2) !! metadata_path E src_dir clip_name ts2 =
    Some (MetaCsv (metadata r2)).
Proof.
  intros run o1 o2 ts1 ts2 H1 H2 Hts Hout.
  destruct (transcribe_video_outputs_kept whisper model processor src_dir
              clip_name chunk_dur temp_dir w r1 H1
              (proj1 (Hout _)) (proj2 (Hout _))) as [Ht1 Hm1].
  destruct (transcribe_video_outputs_kept whisper model processor src_dir
              clip_name chunk_dur temp_dir (later now (world o1)) r2 H2
              (proj1 (Hout _)) (proj2 (Hout _))) as [Ht2 Hm2].
  cbn [later clock] in Ht2, Hm2.
  split; [|split; [|split; [exact Ht2|exact Hm2]]].
  - rewrite <- Ht1. subst o2 run.
    apply (transcribe_video_files_outside whisper model processor src_dir
             clip_name chunk_dur temp_dir (later now (world o1))).
    + apply Hout.
    + cbn [later clock]. intros Heq. apply Hts.
      exact (transcript_path_stamp E _ _ _ _ Heq).
    + apply transcript_path_not_metadata_path.
  - rewrite <- Hm1. subst o2 run.
    apply (transcribe_video_files_outside whisper model processor src_dir
             clip_name chunk_dur temp_dir (later now (world o1))).
    + apply Hout.
    + intros Heq. symmetry in Heq.
      exact (transcript_path_not_metadata_path E _ _ _ _ _ _ Heq).
    + cbn [later clock]. intros Heq. apply Hts.
      exact (metadata_path_stamp E _ _ _ _ Heq).
Qed.

End Frame.

(** ** How often the device monitor reports *)

Section CheckpointCount.

Variable E : Env.





End CheckpointCount.

(** ** The files of a batch, one after the other *)

Section FilesOfABatch.

Variable E : Env.

Lemma no_file_marker_trace tr :
  Forall no_file_marker tr → segmented_clips tr = [] ∧ moved_files tr = [].
Proof.
  induction 1 as [|ev tr Hev _ [IH1 IH2]]; [split; reflexivity|].
  destruct ev; try destruct Hev; split; assumption.
Qed.

Lemma segmented_clips_app t1 t2 :
  segmented_clips (t1 ++ t2) = segmented_clips t1 ++ segmented_clips t2.
Proof. apply omap_app. Qed.

Lemma moved_files_app t1 t2 :
  moved_files (t1 ++ t2) = moved_files t1 ++ moved_files t2.
Proof. apply omap_app. Qed.

Lemma prep_transc_pydub_markers clip src d dur w :
  segmented_clips (trace (prep_transc_pydub E clip src d dur w)) = [clip] ∧
  moved_files (trace (prep_transc_pydub E clip src d dur w)) = [].
Proof.
  rewrite prep_transc_pydub_run.
  destruct (segment E src clip dur) as [chunks|e]; cbn [trace];
    [|split; reflexivity].
  assert (Forall no_file_marker
            (map (fun c : string * string =>
                    EvWriteFile (join d c.1) (Audio c.2)) chunks)) as H
    by (apply Forall_map, Forall_forall; intros c _; exact I).
  apply no_file_marker_trace in H. destruct H as [H1 H2].
  unfold segmented_clips, moved_files in *. cbn [omap list_omap].
  simpl. rewrite H1, H2. split; reflexivity.
Qed.

(** One call of the inference loop asks the segmenter once, for its own
    file, and moves nothing. *)
Lemma transcribe_video_markers (whisper : bool) m p src clip dur tmp w :
  let o := (if whisper
            then transcribe_video_whisper E m p src clip dur tmp
            else transcribe_video_wav2vec E m p src clip dur tmp) w in
  segmented_clips (trace o) = [clip] ∧ moved_files (trace o) = [].
Proof.
  intros o. subst o.
  assert (∀ ev, is_device_event ev = true → no_file_marker ev) as Hdev
    by (intros ev Hev; destruct ev; try discriminate Hev; exact I).
  destruct whisper.
  - rewrite transcribe_video_whisper_phases. cbv zeta.
    destruct (prep_transc_pydub_markers clip src (join src tmp) dur
                (world (create_folder (join src tmp) w))) as [Hs Hm].
    destruct (res (prep_transc_pydub _ _ _ _ _ _)) as [cd|e]; cbn [trace];
      [|split; assumption].
    match goal with
    | |- context [res ?lo] =>
        lazymatch lo with
        | whisper_loop _ _ _ _ _ _ _ _ =>
            assert (Forall no_file_marker (trace lo)) as Hlo
              by (apply emits_whisper_loop_device; [exact Hdev|intros x; exact I]);
            destruct (res lo) as [full|e']
        end
    end; cbn [trace].
    + match goal with
      | |- context [trace ?fo] =>
          lazymatch fo with
          | finish_transcription _ _ _ _ _ _ _ _ =>
              assert (Forall no_file_marker (trace fo)) as Hfo
                by (apply emits_finish_transcription_kinds; intros; exact I)
          end
      end.
      apply no_file_marker_trace in Hlo, Hfo.
      destruct Hlo as [Hl1 Hl2], Hfo as [Hf1 Hf2].
      rewrite !segmented_clips_app, !moved_files_app, Hs, Hm, Hl1, Hl2, Hf1, Hf2.
      split; reflexivity.
    + apply no_file_marker_trace in Hlo. destruct Hlo as [Hl1 Hl2].
      rewrite !segmented_clips_app, !moved_files_app, Hs, Hm, Hl1, Hl2.
      split; reflexivity.
  - rewrite transcribe_video_wav2vec_phases. cbv zeta.
    destruct (prep_transc_pydub_markers clip src (join src tmp) dur
                (world (create_folder (join src tmp) w))) as [Hs Hm].
    assert (segmented_clips (match model_class m with
                             | Wav2Vec2ForCTC => [EvNumParameters m]
                             | _ => []
                             end) = [] ∧
            moved_files (match model_class m with
                         | Wav2Vec2ForCTC => [EvNumParameters m]
                         | _ => []
                         end) = []) as [Ha1 Ha2]
      by (destruct (model_class m); split; reflexivity).
    destruct (res (prep_transc_pydub _ _ _ _ _ _)) as [cd|e]; cbn [trace].
    2: { rewrite segmented_clips_app, moved_files_app, Ha1, Ha2, Hs, Hm.
         split; reflexivity. }
    match goal with
    | |- context [res ?lo] =>
        lazymatch lo with
        | wav2vec_loop _ _ _ _ _ _ _ _ _ =>
            assert (Forall no_file_marker (trace lo)) as Hlo
              by (apply emits_wav2vec_loop_device; [exact Hdev|intros x; exact I]);
            destruct (res lo) as [full|e']
        end
    end; cbn [trace].
    + match goal with
      | |- context [trace ?fo] =>
          lazymatch fo with
          | finish_transcription _ _ _ _ _ _ _ _ =>
              assert (Forall no_file_marker (trace fo)) as Hfo
                by (apply emits_finish_transcription_kinds; intros; exact I)
          end
      end.
      apply no_file_marker_trace in Hlo, Hfo.
      destruct Hlo as [Hl1 Hl2], Hfo as [Hf1 Hf2].
      rewrite !segmented_clips_app, !moved_files_app, Ha1, Ha2, Hs, Hm, Hl1, Hl2,
        Hf1, Hf2.
      split; reflexivity.
    + apply no_file_marker_trace in Hlo. destruct Hlo as [Hl1 Hl2].
      rewrite !segmented_clips_app, !moved_files_app, Ha1, Ha2, Hs, Hm, Hl1, Hl2.
      split; reflexivity.
Qed.

(** One pass of the loop over the files. *)
Lemma transcribe_one_markers iw m p d dur mc f w :
  let o := transcribe_one E iw m p d dur mc f w in
  segmented_clips (trace o) = [f] ∧
  moved_files (trace o) =
    match res o with
    | Ok _ => if mc then [f] else []
    | Raise _ => []
    end.
Proof.
  intros o. subst o. unfold transcribe_one.
  destruct (transcribe_video_markers iw m p d f dur "audio_chunks" w) as [Hs Hm].
  cbv zeta in Hs, Hm. rewrite bind_unfold.
  destruct (res _) as [r|e]; cbn [res trace].
  - rewrite segmented_clips_app, moved_files_app, Hs, Hm.
    destruct mc; split; reflexivity.
  - split; assumption.
Qed.

Lemma transcribe_files_markers iw m p d dur mc files : ∀ w,
  let o := transcribe_files E iw m p d dur mc files w in
  (∃ k, segmented_clips (trace o) = take k files) ∧
  (res o = Ok tt →
   segmented_clips (trace o) = files ∧
   moved_files (trace o) = if mc then files else []).
Proof.
  induction files as [|f rest IH]; intros w; cbn [transcribe_files].
  - split; [exists 0; reflexivity|]. intros _. destruct mc; split; reflexivity.
  - destruct (transcribe_one_markers iw m p d dur mc f w) as [Hs Hm].
    cbv zeta in Hs, Hm. rewrite bind_unfold.
    destruct (res (transcribe_one E iw m p d dur mc f w)) as [[]|e];
      cbn [res trace].
    + destruct (IH (world (transcribe_one E iw m p d dur mc f w)))
        as [[k Hk] Hok].
      split.
      * exists (S k). rewrite segmented_clips_app, Hs, Hk. reflexivity.
      * intros Hres. destruct (Hok Hres) as [Hs' Hm'].
        rewrite segmented_clips_app, moved_files_app, Hs, Hm, Hs', Hm'.
        destruct mc; split; reflexivity.
    + split; [exists 1; rewrite Hs; reflexivity|]. intros Hres. discriminate Hres.
Qed.

(** X11: the loop over the files hands each file to the segmenter exactly
    once and in discovery order; it neither skips nor repeats a file.  A
    loop that returns has gone through all the files, a loop that raises
    through a prefix of them. *)
Theorem each_file_is_segmented_once_in_order (_is_whisper : bool)
    (model : Model) (processor : Processor) (directory : string)
    (chunk_length : Z) (move_comp : bool) (approved_files : list string)
    (w : World) :
  let o := transcribe_files E _is_whisper model processor directory chunk_length
             move_comp approved_files w in
  (∃ k, segmented_clips (trace o) = take k approved_files) ∧
  (res o = Ok tt → segmented_clips (trace o) = approved_files).
Proof.
  intros o.
  destruct (transcribe_files_markers _is_whisper model processor directory
              chunk_length move_comp approved_files w) as [Hk Hok].
  split; [exact Hk|]. intros Hres. apply Hok, Hres.
Qed.

(** X12: with [move_comp] a source file is moved to the completed folder
    as soon as its own transcription has returned, and never otherwise.
    When the run stops at a failing file, exactly the files before it
    have been moved, so that a second run starts with the failing file;
    without [move_comp] nothing is ever moved. *)
Theorem completed_files_are_moved_before_a_crash (_is_whisper : bool)
    (model : Model) (processor : Processor) (directory : string)
    (chunk_length : Z) (move_comp : bool) (pre post : list string) (f : string)
    (e : exn) (w : World) :
  let run := transcribe_files E _is_whisper model processor directory
               chunk_length move_comp in
  res (run pre w) = Ok tt →
  res (transcribe_one E _is_whisper model processor directory chunk_length
         move_comp f (world (run pre w))) = Raise e →
  res (run (pre ++ f :: post) w) = Raise e ∧
  segmented_clips (trace (run (pre ++ f :: post) w)) = pre ++ [f] ∧
  moved_files (trace (run (pre ++ f :: post) w)) = (if move_comp then pre else []) ∧
  moved_files (trace (run pre w)) = (if move_comp then pre else []).
Proof.
  intros run Hpre Hone. subst run.
  rewrite (transcribe_files_raise E _ _ _ _ _ _ pre f post e w Hpre Hone).
  cbn [res trace].
  destruct (transcribe_files_markers _is_whisper model processor directory
              chunk_length move_comp pre w) as [_ Hok].
  destruct (Hok Hpre) as [Hs Hm].
  destruct (transcribe_one_markers _is_whisper model processor directory
              chunk_length move_comp f
              (world (transcribe_files E _is_whisper model processor directory
                        chunk_length move_comp pre w))) as [Hs1 Hm1].
  cbv zeta in Hs1, Hm1. rewrite Hone in Hm1.
  rewrite segmented_clips_app, moved_files_app, Hs, Hm, Hs1, Hm1, app_nil_r.
  repeat split; reflexivity.
Qed.

End FilesOfABatch.

(** ** The spell checker of a run *)

Section CheckerOfARun.

Variable E : Env.

(** What [acquire_checker] hands on: the handle of the method that the
    returned flag stands for; a request for the basic corrector is never
    turned into the advanced one. *)
Lemma acquire_checker_consistent base_spelling w bs c :
  res (acquire_checker E base_spelling w) = Ok (bs, c) →
  c = (if bs then Symspell else Neuspell) ∧ (base_spelling = true → bs = true).
Proof.
  unfold acquire_checker, try_except, init_neuspell, init_symspell.
  destruct base_spelling; rewrite !bind_unfold; simpl.
  - destruct (symspell_fault E); simpl; intros H; [discriminate H|].
    injection H as <- <-. split; [reflexivity|intros _; reflexivity].
  - destruct (neuspell_fault E); simpl.
    + destruct (symspell_fault E); simpl; intros H; [discriminate H|].
      injection H as <- <-. split; [reflexivity|intros _; reflexivity].
    + intros H. injection H as <- <-. split; [reflexivity|intros H; exact H].
Qed.

Lemma transcribe_dir_setup_checker directory model_id base_spelling w ctx :
  res (transcribe_dir_setup E directory model_id base_spelling w) = Ok ctx →
  ctx_checker ctx = (if ctx_base_spelling ctx then Symspell else Neuspell) ∧
  (base_spelling = true → ctx_base_spelling ctx = true).
Proof.
  unfold transcribe_dir_setup. intros H.
  apply bind_res_ok in H. destruct H as (iw & _ & H).
  apply bind_res_ok in H. destruct H as ([processor model] & _ & H).
  apply bind_res_ok in H. destruct H as ([bs checker] & Hacq & H).
  apply bind_res_ok in H. destruct H as (files & _ & H).
  apply bind_res_ok in H. destruct H as ([t m] & _ & H).
  injection H as <-. cbn [ctx_checker ctx_base_spelling].
  exact (acquire_checker_consistent _ _ _ _ Hacq).
Qed.

Lemma acquire_checker_basic w :
  trace (acquire_checker E true w) = [EvInitSymspell].
Proof.
  unfold acquire_checker, init_symspell. rewrite !bind_unfold. simpl.
  destruct (symspell_fault E); reflexivity.
Qed.

Lemma transcribe_dir_setup_basic directory model_id w :
  Forall (keeps_checker "symspell" Symspell)
    (trace (transcribe_dir_setup E directory model_id true w)).
Proof.
  unfold transcribe_dir_setup.
  destruct model_id as [id|]; [|constructor].
  rewrite bind_unfold. cbn [mret M_ret res world trace app].
  destruct (contains "whisper" (lower id)); [constructor|].
  rewrite bind_unfold.
  destruct (load_wav2vec2_modules_quiet E id w) as [Hw Htr].
  rewrite Htr, Hw.
  destruct (res (load_wav2vec2_modules E id w)) as [[processor model]|e];
    [|constructor].
  cbn [trace app]. rewrite bind_unfold, acquire_checker_basic.
  destruct (res (acquire_checker E true w)) as [[bs c]|e];
    cbn [trace]; [|repeat constructor].
  apply Forall_app. split; [repeat constructor|].
  match goal with
  | |- Forall _ (trace (?k ?w0)) =>
      generalize w0; change (emits (keeps_checker "symspell" Symspell) k)
  end.
  apply emits_bind; [apply emits_find_approved_files|intros files].
  apply emits_bind; [apply emits_setup_out_dirs|intros [t m]].
  apply emits_ret.
Qed.

(** The stages after the setup, for the method and the handle of the
    run. *)
Lemma emits_after_setup (P : Event → Prop) iw m p directory dur mc files
    t_out m_out linebyline method c :
  (∀ ev, is_inference_event ev = true → P ev) →
  (∀ d f l, P (EvSpellcorrect d f method c l)) →
  (∀ d f n k, P (EvQuickKeys d f n k)) →
  emits P
    (transcribe_files E iw m p directory dur mc files;;
     processed_dir ← postprocess_transc E t_out m_out false linebyline method
                       (Some c);
     mret (processed_dir, m_out)).
Proof.
  intros Hinf Hsc Hqk.
  apply emits_bind; [apply emits_transcribe_files, Hinf|intros _].
  apply emits_bind; [|intros dir; apply emits_ret].
  apply emits_postprocess_transc; [exact Hsc|exact Hqk|].
  intros path x. apply Hinf. reflexivity.
Qed.

(** X13: in every run of [transcribe_dir] the method name given to
    [spellcorrect_pipeline] belongs to the handle given with it:
    [symspell] with the basic handle, [neuspell] with the advanced one,
    also after the fallback.  With [basic_spelling] the advanced corrector
    is not even initialised, and every call is a basic one. *)
Theorem spell_method_matches_handle
    (input_dir : string) (chunk_length : Z) (model_id : option string)
    (basic_spelling move_comp join_text verbose : bool) (w : World) :
  let o := transcribe_dir E input_dir chunk_length model_id basic_spelling
             move_comp join_text verbose w in
  Forall method_matches_handle (trace o) ∧
  (basic_spelling = true →
   count_init_neuspell (trace o) = 0 ∧
   Forall (fun call => call = ("symspell", Symspell))
     (spellcorrect_calls (trace o))).
Proof.
  intros o. subst o. unfold transcribe_dir. cbv zeta.
  rewrite bind_unfold.
  pose proof (transcribe_dir_setup_checker (abspath input_dir) model_id
                basic_spelling w) as Hctx.
  assert (Forall method_matches_handle
            (trace (transcribe_dir_setup E (abspath input_dir) model_id
                      basic_spelling w))) as Hsetup
    by (apply emits_transcribe_dir_setup; intros; exact I).
  split.
  - destruct (res (transcribe_dir_setup E (abspath input_dir) model_id
                     basic_spelling w)) as [ctx|e]; cbn [trace];
      [|exact Hsetup].
    apply Forall_app. split; [exact Hsetup|].
    destruct (Hctx ctx eq_refl) as [Hc _].
    match goal with
    | |- Forall _ (trace (?k ?w0)) =>
        generalize w0; change (emits method_matches_handle k)
    end.
    apply emits_after_setup.
    + intros ev Hev. destruct ev; try discriminate Hev; exact I.
    + intros d f l. simpl. rewrite Hc.
      destruct (ctx_base_spelling ctx); [left|right]; split; reflexivity.
    + intros; exact I.
  - intros ->.
    match goal with
    | |- count_init_neuspell ?tr = 0 ∧ _ =>
        enough (Forall (keeps_checker "symspell" Symspell) tr) as Hk
          by (apply keeps_checker_trace in Hk; destruct Hk; split; assumption)
    end.
    pose proof (transcribe_dir_setup_basic (abspath input_dir) model_id w)
      as Hbasic.
    destruct (res (transcribe_dir_setup E (abspath input_dir) model_id true w))
      as [ctx|e]; cbn [trace]; [|exact Hbasic].
    apply Forall_app. split; [exact Hbasic|].
    destruct (Hctx ctx eq_refl) as [Hc Hbs]. rewrite (Hbs eq_refl) in *.
    match goal with
    | |- Forall _ (trace (?k ?w0)) =>
        generalize w0; change (emits (keeps_checker "symspell" Symspell) k)
    end.
    apply emits_after_setup.
    + intros ev Hev. destruct ev; try discriminate Hev; exact I.
    + intros d f l. simpl. rewrite Hc. split; reflexivity.
    + intros; exact I.
Qed.




End CheckerOfARun.

(** ** The transcripts of the postprocess stage, one after the other *)

Section TranscriptsOfARun.

Variable E : Env.

Lemma spellcorrected_files_app t1 t2 :
  spellcorrected_files (t1 ++ t2) =
  spellcorrected_files t1 ++ spellcorrected_files t2.
Proof. apply omap_app. Qed.

Lemma keyword_db_writes_app t1 t2 :
  keyword_db_writes (t1 ++ t2) = keyword_db_writes t1 ++ keyword_db_writes t2.
Proof. apply omap_app. Qed.

(** The loop over the transcripts returns the answer that
    [spellcorrect_pipeline] gave for the last of them. *)
Lemma postprocess_loop_last tscript method c linebyline last pl_last init :
  spellcorrect E tscript last method c linebyline = Ok pl_last →
  ∀ tables, Forall2 (keyword_table_of E tscript method c linebyline)
              (init ++ [last]) tables →
  ∀ kw pl w,
    res (postprocess_loop E tscript method c linebyline (init ++ [last]) kw pl w) =
    Ok (foldl concat_axis1 kw tables, Some pl_last).
Proof.
  intros Hlast. induction init as [|f init IH]; intros tables Htables kw pl w.
  - inversion Htables as [|? df ? rest (p & Hsc & Hkw) Hrest]; subst.
    inversion Hrest; subst.
    rewrite Hlast in Hsc. injection Hsc as <-.
    cbn [app postprocess_loop]. unfold spellcorrect_pipeline, quick_keys.
    rewrite Hlast.
    repeat (rewrite bind_unfold; cbn [emit of_result res world trace]).
    rewrite Hkw.
    repeat (rewrite bind_unfold; cbn [emit of_result res world trace]).
    reflexivity.
  - inversion Htables as [|? df ? rest (p & Hsc & Hkw) Hrest]; subst.
    cbn [app postprocess_loop]. unfold spellcorrect_pipeline, quick_keys.
    rewrite Hsc.
    repeat (rewrite bind_unfold; cbn [emit of_result res world trace]).
    rewrite Hkw.
    repeat (rewrite bind_unfold; cbn [emit of_result res world trace]).
    rewrite (IH rest Hrest). reflexivity.
Qed.

(** The loop over the transcripts when the file after [pre] fails, in
    [spellcorrect_pipeline] or in [quick_keys]. *)
Lemma postprocess_loop_fails tscript method c linebyline f post e :
  (spellcorrect E tscript f method c linebyline = Raise e ∨
   ∃ pl, spellcorrect E tscript f method c linebyline = Ok pl ∧
         keywords E (spell_corrected_dir pl) (sc_filename pl) 25 3 = Raise e) →
  ∀ pre tables,
    Forall2 (keyword_table_of E tscript method c linebyline) pre tables →
    ∀ kw pl w,
      let o := postprocess_loop E tscript method c linebyline
                 (pre ++ f :: post) kw pl w in
      res o = Raise e ∧
      spellcorrected_files (trace o) = pre ++ [f] ∧
      keyword_db_writes (trace o) = [].
Proof.
  intros Hf. induction 1 as [|g df pre tables (p & Hsc & Hkw) _ IH];
    intros kw pl w.
  - cbn [app postprocess_loop]. unfold spellcorrect_pipeline, quick_keys.
    destruct Hf as [Hsc|(p & Hsc & Hkw)]; rewrite Hsc;
      repeat (rewrite bind_unfold; cbn [emit of_result res world trace]).
    + repeat split; reflexivity.
    + rewrite Hkw.
      repeat (rewrite bind_unfold; cbn [emit of_result res world trace]).
      repeat split; reflexivity.
  - cbn [app postprocess_loop]. unfold spellcorrect_pipeline, quick_keys.
    rewrite Hsc.
    repeat (rewrite bind_unfold; cbn [emit of_result res world trace]).
    rewrite Hkw.
    repeat (rewrite bind_unfold; cbn [emit of_result res world trace]).
    destruct (IH (concat_axis1 kw df) (Some p) w) as (Hres & Hfiles & Hwrites).
    cbv zeta in Hres, Hfiles, Hwrites. rewrite Hres. cbn [res trace app].
    split; [reflexivity|]. split.
    + unfold spellcorrected_files in *. cbn [omap list_omap].
      simpl. rewrite <- Hfiles. reflexivity.
    + unfold keyword_db_writes in *. simpl. exact Hwrites.
Qed.

(** X15: [postprocess_transc] answers with the sentence folder of the
    last transcript it went through: when the transcript folder holds the
    files [init ++ [last]] and both collaborators answer for each of them,
    the call returns the [SBD_dir] that [spellcorrect_pipeline] reported
    for [last]; what it reported for the files before is dropped. *)
Theorem postprocess_returns_folder_of_last_transcript
    (tscript_dir mdata_dir : string) (linebyline : bool) (method : string)
    (c : Checker) (w : World) (init : list string) (last : string)
    (tables : list DataFrame) (pl_last : PLOut) :
  res (find_ext_local tscript_dir ".txt" w) = Ok (init ++ [last]) →
  Forall2 (keyword_table_of E tscript_dir method c linebyline)
    (init ++ [last]) tables →
  spellcorrect E tscript_dir last method c linebyline = Ok pl_last →
  res (postprocess_transc E tscript_dir mdata_dir false linebyline method
         (Some c) w) = Ok (SBD_dir pl_last).
Proof.
  intros Hfind Htables Hlast. unfold postprocess_transc.
  rewrite bind_unfold. cbn [mret M_ret res world trace app].
  rewrite bind_unfold. cbn [mret M_ret res world trace app].
  rewrite (bind_ok _ _ _ _ Hfind). cbn [find_ext_local res world trace app].
  rewrite (bind_ok _ _ _ _
             (postprocess_loop_last tscript_dir method c linebyline last pl_last
                init Hlast tables Htables [] None w)).
  cbn [res]. rewrite bind_unfold. cbn [get_timestamp res world trace app].
  rewrite bind_unfold. cbn [write_file res world trace app].
  reflexivity.
Qed.

(** X16: a transcript on which [spellcorrect_pipeline] or [quick_keys]
    fails ends the postprocess stage with that exception: the transcripts
    after it are not looked at, and the keyword database is not written,
    so the keyword tables of the transcripts before it are lost. *)
Theorem failing_transcript_loses_keyword_database
    (tscript_dir mdata_dir : string) (linebyline : bool) (method : string)
    (c : Checker) (w : World) (pre post : list string) (f : string)
    (tables : list DataFrame) (e : exn) :
  res (find_ext_local tscript_dir ".txt" w) = Ok (pre ++ f :: post) →
  Forall2 (keyword_table_of E tscript_dir method c linebyline) pre tables →
  (spellcorrect E tscript_dir f method c linebyline = Raise e ∨
   ∃ pl, spellcorrect E tscript_dir f method c linebyline = Ok pl ∧
         keywords E (spell_corrected_dir pl) (sc_filename pl) 25 3 = Raise e) →
  let o := postprocess_transc E tscript_dir mdata_dir false linebyline method
             (Some c) w in
  res o = Raise e ∧
  spellcorrected_files (trace o) = pre ++ [f] ∧
  keyword_db_writes (trace o) = [].
Proof.
  intros Hfind Htables Hf o. subst o. unfold postprocess_transc.
  rewrite bind_unfold. cbn [mret M_ret res world trace app].
  rewrite bind_unfold. cbn [mret M_ret res world trace app].
  rewrite (bind_ok _ _ _ _ Hfind). cbn [find_ext_local res world trace app].
  destruct (postprocess_loop_fails tscript_dir method c linebyline f post e Hf
              pre tables Htables [] None w) as (Hres & Hfiles & Hwrites).
  cbv zeta in Hres, Hfiles, Hwrites.
  rewrite (bind_raise _ _ _ _ Hres). cbn [res trace].
  repeat split; assumption.
Qed.

End TranscriptsOfARun.

(** ** The model identifier of a run *)

Section ModelOfARun.

Variable E : Env.


End ModelOfARun.

(** ** The further properties on the example recordings *)

Lemma fragments_follow_chunk_order_witness :
  ∃ md,
    res (transcribe_video_wav2vec (example_env None None) base_model
           base_processor "/in" "lecture.mp3" 30 "audio_chunks"
           (world_with ["lecture.mp3"] 0)) =
    Ok {| audio_transcription :=
            ["lecture.mp3 part 0 of 30 s" +:+ newline;
             "lecture.mp3 part 1 of 30 s" +:+ newline;
             "lecture.mp3 part 2 of 5 s" +:+ newline];
          metadata := md |}.
Proof.
  eexists.
  exact (fragments_follow_chunk_order (example_env None None) base_model
           base_processor "/in" "lecture.mp3" 30 "audio_chunks"
           (world_with ["lecture.mp3"] 0)
           [("chunk_0.wav", "lecture.mp3 part 0 of 30 s");
            ("chunk_1.wav", "lecture.mp3 part 1 of 30 s");
            ("chunk_2.wav", "lecture.mp3 part 2 of 5 s")]
           [["lecture.mp3 part 0 of 30 s"]; ["lecture.mp3 part 1 of 30 s"];
            ["lecture.mp3 part 2 of 5 s"]]
           ltac:(vm_compute; reflexivity)
           ltac:(apply (bool_decide_unpack _); vm_compute; exact I)
           ltac:(repeat (constructor; [vm_compute; reflexivity|]); constructor)).
Defined.

Lemma no_chunks_is_not_an_error_witness :
  let o := transcribe_video_whisper silent_env whisper_model whisper_processor
             "/in" "silence.mp3" 30 "audio_chunks"
             (world_with ["silence.mp3"] 0) in
  (∃ row, res o = Ok {| audio_transcription := []; metadata := [row] |} ∧
          md_chunk_count row = 0 ∧ md_num_words row = 1) ∧
  List.filter is_model_event (trace o) = [] ∧
  checkpoint_indices 0 (trace o) = [].
Proof.
  intros o.
  destruct (no_chunks_is_not_an_error silent_env true whisper_model
              whisper_processor "/in" "silence.mp3" 30 "audio_chunks"
              (world_with ["silence.mp3"] 0) eq_refl)
    as (Hres & _ & _ & Hcalls & Hcheck).
  split; [|split; assumption].
  eexists. split; [exact Hres|]. split; reflexivity.
Defined.


Lemma outputs_hold_the_returned_result_witness :
  let o := transcribe_video_wav2vec (example_env None None) base_model
             base_processor "/in" "lecture.mp3" 30 "audio_chunks"
             (world_with ["lecture.mp3"] 0) in
  ∃ r row,
    res o = Ok r ∧ metadata r = [row] ∧
    files (world o) !!
      "/in/v2clntxt_transcriptions/lecture.mp3_vid2txt_run-0_full.txt" =
      Some (Text (md_full_text row)) ∧
    files (world o) !!
      "/in/v2clntxt_transc_metadata/lecture.mp3_vid2txt_run-0_metadata.csv" =
      Some (MetaCsv [row]).
Proof.
  intros o.
  assert (∃ r, res o = Ok r) as [r Hr] by (eexists; vm_compute; reflexivity).
  destruct (outputs_hold_the_returned_result (example_env None None) false
              base_model base_processor "/in" "lecture.mp3" 30 "audio_chunks"
              (world_with ["lecture.mp3"] 0) r Hr eq_refl eq_refl)
    as (row & Hmd & Hfile & Hmeta).
  exists r, row. repeat split; assumption.
Defined.

Lemma second_run_keeps_first_outputs_witness :
  let o1 := transcribe_video_wav2vec (example_env None None) base_model
              base_processor "/in" "lecture.mp3" 30 "audio_chunks"
              (world_with ["lecture.mp3"] 0) in
  let o2 := transcribe_video_wav2vec (example_env None None) base_model
              base_processor "/in" "lecture.mp3" 30 "audio_chunks"
              (later 1 (world o1)) in
  ∃ r1 r2,
    res o1 = Ok r1 ∧ res o2 = Ok r2 ∧
    files (world o2) !!
      "/in/v2clntxt_transc_metadata/lecture.mp3_vid2txt_run-0_metadata.csv" =
      Some (MetaCsv (metadata r1)) ∧
    files (world o2) !!
      "/in/v2clntxt_transc_metadata/lecture.mp3_vid2txt_run-1_metadata.csv" =
      Some (MetaCsv (metadata r2)).
Proof.
  intros o1 o2.
  assert (∃ r, res o1 = Ok r) as [r1 Hr1] by (eexists; vm_compute; reflexivity).
  assert (∃ r, res o2 = Ok r) as [r2 Hr2] by (eexists; vm_compute; reflexivity).
  destruct (second_run_keeps_first_outputs (example_env None None) false
              base_model base_processor "/in" "lecture.mp3" 30 "audio_chunks"
              (world_with ["lecture.mp3"] 0) 1 r1 r2 Hr1 Hr2
              ltac:(intros H; vm_compute in H; discriminate H)
              ltac:(intros ts; split; reflexivity))
    as (_ & Hm1 & _ & Hm2).
  exists r1, r2. repeat split; assumption.
Defined.


Lemma each_file_is_segmented_once_in_order_witness :
  segmented_clips
    (trace (transcribe_files (example_env None None) false base_model
              base_processor "/in" 30 false ["lecture.mp3"; "talk.mp3"]
              (world_with ["lecture.mp3"; "talk.mp3"] 0))) =
  ["lecture.mp3"; "talk.mp3"].
Proof.
  exact (proj2 (each_file_is_segmented_once_in_order (example_env None None)
                  false base_model base_processor "/in" 30 false
                  ["lecture.mp3"; "talk.mp3"]
                  (world_with ["lecture.mp3"; "talk.mp3"] 0))
           ltac:(vm_compute; reflexivity)).
Defined.

Lemma completed_files_are_moved_before_a_crash_witness :
  let o := transcribe_files (example_env None None) false base_model
             base_processor "/in" 30 true
             ["lecture.mp3"; "noisy.mp3"; "talk.mp3"]
             (world_with ["lecture.mp3"; "noisy.mp3"; "talk.mp3"] 0) in
  res o = Raise (Failure "model" "CUDA out of memory") ∧
  segmented_clips (trace o) = ["lecture.mp3"; "noisy.mp3"] ∧
  moved_files (trace o) = ["lecture.mp3"].
Proof.
  intros o.
  destruct (completed_files_are_moved_before_a_crash (example_env None None)
              false base_model base_processor "/in" 30 true ["lecture.mp3"]
              ["talk.mp3"] "noisy.mp3" (Failure "model" "CUDA out of memory")
              (world_with ["lecture.mp3"; "noisy.mp3"; "talk.mp3"] 0)
              ltac:(vm_compute; reflexivity) ltac:(vm_compute; reflexivity))
    as (Hres & Hseg & Hmoved & _).
  repeat split; assumption.
Defined.

Lemma spell_method_matches_handle_witness :
  let o := transcribe_dir (example_env None None) "/in" 30
             (Some "facebook/wav2vec2-base-960h") true false false false
             (world_with ["lecture.mp3"] 0) in
  count_init_neuspell (trace o) = 0 ∧
  Forall (fun call => call = ("symspell", Symspell)) (spellcorrect_calls (trace o)).
Proof.
  intros o.
  exact (proj2 (spell_method_matches_handle (example_env None None) "/in" 30
                  (Some "facebook/wav2vec2-base-960h") true false false false
                  (world_with ["lecture.mp3"] 0)) eq_refl).
Defined.


Lemma postprocess_returns_folder_of_last_transcript_witness :
  res (postprocess_transc (example_env None None) "/out" "/meta" false true
         "symspell" (Some Symspell) transcripts_world) =
  Ok "/out/sentences".
Proof.
  exact (postprocess_returns_folder_of_last_transcript (example_env None None)
           "/out" "/meta" true "symspell" Symspell transcripts_world
           ["a_full.txt"] "b_full.txt"
           [ keywords_of_example "corrected_a_full.txt";
             keywords_of_example "corrected_b_full.txt" ]
           {| spell_corrected_dir := "/out/corrected";
              sc_filename := "corrected_b_full.txt";
              SBD_dir := "/out/sentences" |}
           ltac:(vm_compute; reflexivity)
           ltac:(repeat constructor; eexists; split; reflexivity)
           ltac:(vm_compute; reflexivity)).
Defined.

Lemma failing_transcript_loses_keyword_database_witness :
  let o := postprocess_transc unreadable_transcript_env "/out" "/meta" false
             true "symspell" (Some Symspell) three_transcripts_world in
  res o = Raise (Failure "spellcorrect_pipeline" "cannot decode a_full.txt") ∧
  spellcorrected_files (trace o) = ["c_full.txt"; "a_full.txt"] ∧
  keyword_db_writes (trace o) = [].
Proof.
  exact (failing_transcript_loses_keyword_database unreadable_transcript_env
           "/out" "/meta" true "symspell" Symspell three_transcripts_world
           ["c_full.txt"] ["b_full.txt"] "a_full.txt"
           [ keywords_of_example "corrected_c_full.txt" ]
           (Failure "spellcorrect_pipeline" "cannot decode a_full.txt")
           ltac:(vm_compute; reflexivity)
           ltac:(repeat constructor; eexists; split; reflexivity)
           ltac:(left; reflexivity)).
Defined.

